(** * libfive: oracles standing in for the coordinate axes

    A shallow embedding of [libfive/test/oracle.cpp]: the oracle
    [AxisOracle<A>] that wraps one coordinate axis, its clause
    [AxisOracleClause<A>], the substitution [convertToOracleAxes] and the
    comparison [BRepCompare] used by the two render-and-compare tests.
    The tree, the evaluator and the mesher that the tests call are not
    among the sources; they are modelled from the specification, and each
    such definition says so.

    Scalars are IEEE 754 binary32 values ([float] in the C++ source), taken
    from the Standard Library's [SpecFloat] at precision 24 and maximal
    exponent 128.  The oracle only copies scalars and writes the literals
    0 and 1, so no rounding takes place in the code embedded from the
    source. *)

From Stdlib Require Import ZArith Lia Bool List SpecFloat Reals Lra.
From stdpp Require Import base option list gmap.

Local Open Scope Z_scope.

(** ** Scalars: binary32 *)

Module Float32.

Definition prec : Z := 24.
Definition emax : Z := 128.

Definition float : Type := spec_float.

(** Conversion of an integer literal, as in [v(A) = 1]. *)
Definition of_int (z : Z) : float := binary_normalize prec emax z 0 false.

(** [m * 2^e] for a literal such as [1.5f] (= 3 * 2^-1). *)
Definition of_dyadic (m e : Z) : float := binary_normalize prec emax m e false.

Definition zero : float := S754_zero false.
Definition one : float := of_int 1.

(** The comparisons of the hardware: every comparison with a NaN is
    false, and the two zeros are equal. *)
Definition eqb (a b : float) : bool := SFeqb a b.
Definition leb (a b : float) : bool := SFleb a b.
Definition ltb (a b : float) : bool := SFltb a b.

(** The real number a finite value stands for (0 for the others). *)
Definition to_R (a : float) : R :=
  match a with
  | S754_finite s m e =>
      let v := (IZR (Zpos m) * powerRZ 2 e)%R in
      if s then (- v)%R else v
  | _ => 0%R
  end.

End Float32.

Abbreviation float := Float32.float.

(** ** Eigen::Vector3f and the axis index *)

(** The template argument [A] of [AxisOracle<A>] and [AxisOracleClause<A>];
    the source instantiates it at 0, 1 and 2 only. *)
Inductive Axis : Set := Axis0 | Axis1 | Axis2.

#[global] Instance Axis_eq_dec : EqDecision Axis.
Proof. solve_decision. Defined.

Definition all_axes : list Axis := [Axis0; Axis1; Axis2].

Record Vector3f : Type := mkVector3f { vx : float; vy : float; vz : float }.

(** [v(A)], read. *)
Definition coeff (v : Vector3f) (A : Axis) : float :=
  match A with Axis0 => vx v | Axis1 => vy v | Axis2 => vz v end.

(** [v(A) = f], written. *)
Definition set_coeff (v : Vector3f) (A : Axis) (f : float) : Vector3f :=
  match A with
  | Axis0 => mkVector3f f (vy v) (vz v)
  | Axis1 => mkVector3f (vx v) f (vz v)
  | Axis2 => mkVector3f (vx v) (vy v) f
  end.

(** [Eigen::Vector3f::Zero()] *)
Definition Vector3f_Zero : Vector3f :=
  mkVector3f Float32.zero Float32.zero Float32.zero.

(** The unit vector along [A]: every component zero except component [A],
    which is one. *)
Definition unit_vector (A : Axis) : Vector3f :=
  mkVector3f (if decide (A = Axis0) then Float32.one else Float32.zero)
             (if decide (A = Axis1) then Float32.one else Float32.zero)
             (if decide (A = Axis2) then Float32.one else Float32.zero).

(** ** The Kernel namespace: what the oracle is written against *)

Module Kernel.

Module Interval.

(** Modelled from the spec: [Interval::I], whose header is not among the
    sources: a lower and an upper bound, as the brace initialiser
    [{lower, upper}] of the source gives them. *)
Record I : Type := mkI { lower : float; upper : float }.

(** A scalar lies within the interval. *)
Definition contains (i : I) (x : float) : bool :=
  Float32.leb (lower i) x && Float32.leb x (upper i).

End Interval.

(** Modelled from the spec: [Feature], whose header is not among the
    sources; [Feature(v)] is the feature made of the direction [v]. *)
Record Feature : Type := mkFeature { deriv : Vector3f }.

(** Modelled from the spec: the base class [OracleStorage<>] of
    [libfive/eval/oracle_storage.hpp], which is not among the sources.
    It holds what the oracle reads: the two corners [lower] and [upper]
    of the region under evaluation, and [points], the samples of the
    bound batch, addressed by index. *)
Record OracleStorage : Type := mkOracleStorage {
  lower : Vector3f;
  upper : Vector3f;
  points : list Vector3f
}.

(** A point lies inside the region held by the storage: between the two
    corners on every axis. *)
Definition inside (lo hi p : Vector3f) : bool :=
  forallb (fun A => Float32.leb (coeff lo A) (coeff p A)
                    && Float32.leb (coeff p A) (coeff hi A)) all_axes.

(** The five virtual operations [AxisOracle<A>] overrides, with the
    signatures the source gives them.  Each takes the
    content its output parameter has on entry and the object it is called
    on, and gives the content of the output parameter on exit and the
    object afterwards.  [evalPoint] has no result when the index is
    outside the bound batch. *)
Class Oracle (O : Type) : Type := {
  evalInterval : Interval.I -> O -> Interval.I * O;
  evalPoint : float -> nat -> O -> option (float * O);
  checkAmbiguous : list bool -> O -> list bool * O;
  evalDerivs : Vector3f -> nat -> O -> Vector3f * O;
  evalFeatures : list Feature -> O -> list Feature * O
}.

End Kernel.

Import Kernel.

(** ** AxisOracle<A>: this oracle wraps the X, Y, or Z axis *)

(** The class adds no member to its base. *)
Record AxisOracle (A : Axis) : Type := mkAxisOracle { base : OracleStorage }.
Arguments mkAxisOracle {A} _.
Arguments base {A} _.

Module AxisOracleImpl.
Section Methods.

Context {A : Axis}.
Implicit Types this : AxisOracle A.

(** [out = {lower(A), upper(A)};] *)
Definition evalInterval (out : Interval.I) this : Interval.I * AxisOracle A :=
  (Interval.mkI (coeff (lower (base this)) A) (coeff (upper (base this)) A),
   this).

(** [out = points(index)(A);] *)
Definition evalPoint (out : float) (index : nat) this
  : option (float * AxisOracle A) :=
  match points (base this) !! index with
  | Some p => Some (coeff p A, this)
  | None => None
  end.

(** The body is empty: [// Nothing to do here]. *)
Definition checkAmbiguous (out : list bool) this : list bool * AxisOracle A :=
  (out, this).

(** [v = Eigen::Vector3f::Zero(); v(A) = 1;] *)
Definition evalDerivs (v : Vector3f) (index : nat) this
  : Vector3f * AxisOracle A :=
  let v := Vector3f_Zero in
  let v := set_coeff v A (Float32.of_int 1) in
  (v, this).

(** [Eigen::Vector3f v = Eigen::Vector3f::Zero(); v(A) = 1;
    out.push_back(Feature(v));] *)
Definition evalFeatures (out : list Feature) this
  : list Feature * AxisOracle A :=
  let v := Vector3f_Zero in
  let v := set_coeff v A (Float32.of_int 1) in
  (out ++ [mkFeature v], this).

End Methods.
End AxisOracleImpl.

#[global] Instance AxisOracle_Oracle (A : Axis) : Oracle (AxisOracle A) := {
  evalInterval := AxisOracleImpl.evalInterval;
  evalPoint := AxisOracleImpl.evalPoint;
  checkAmbiguous := AxisOracleImpl.checkAmbiguous;
  evalDerivs := AxisOracleImpl.evalDerivs;
  evalFeatures := AxisOracleImpl.evalFeatures
}.

(** ** The free store *)

(** Objects live at locations; [new] takes a location that no live object
    occupies.  The only class of oracles this file defines is
    [AxisOracle<A>], so an object is an [AxisOracle<A>] for some [A]: its
    dynamic type and its state.  Exhaustion of memory is not modelled. *)
Module Store.

Definition loc : Type := positive.

Inductive Object : Type :=
| Obj_AxisOracle (A : Axis) (o : AxisOracle A).

Abbreviation Heap := (gmap loc Object).

(** [std::unique_ptr<Oracle>]; [None] is the null pointer. *)
Definition unique_ptr : Type := option loc.

(** [new T(...)] for an object already constructed by value. *)
Definition new (obj : Object) (h : Heap) : loc * Heap :=
  let l := fresh (dom h) in (l, <[l := obj]> h).

(** The samples an object is bound to. *)
Definition bound_batch (obj : Object) : list Vector3f :=
  match obj with Obj_AxisOracle _ o => points (base o) end.

End Store.

Import Store.

(** [AxisOracle<A>()]: the class declares no constructor, and the
    expression [new AxisOracle<A>()] value-initialises the object.
    Modelled from the spec as to the state of the base class: a newly
    constructed oracle is bound to no batch. *)
Definition AxisOracle_new (A : Axis) : AxisOracle A :=
  mkAxisOracle (mkOracleStorage Vector3f_Zero Vector3f_Zero []).

(** ** AxisOracleClause<A>: constructing AxisOracle objects *)

(** The base class [OracleClause], whose header is not among the sources.
    [getOracle] is marked [override] in [AxisOracleClause<A>], so the base
    class declares it, as a virtual member function; it is the operation
    the specification calls makeOracle.  It is [const], so the clause itself
    is not returned.  [AxisOracleClause<A>] declares it in its private
    part: it is called through [OracleClause] only. *)
Class OracleClause (C : Type) : Type := {
  getOracle : C -> Heap -> unique_ptr * Heap
}.

(** The class has no data member. *)
Record AxisOracleClause (A : Axis) : Type := mkAxisOracleClause { }.
Arguments mkAxisOracleClause {A}.

Module AxisOracleClauseImpl.

(** [return std::unique_ptr<Oracle>(new AxisOracle<A>());] *)
Definition getOracle {A : Axis} (this : AxisOracleClause A) (h : Heap)
  : unique_ptr * Heap :=
  let '(l, h') := new (Obj_AxisOracle A (AxisOracle_new A)) h in
  (Some l, h').

End AxisOracleClauseImpl.

#[global] Instance AxisOracleClause_OracleClause (A : Axis)
  : OracleClause (AxisOracleClause A) := {
  getOracle := AxisOracleClauseImpl.getOracle
}.

(** ** Catch: a test body that REQUIREs *)

Module Catch.

(** How the run of a test body ends: it runs to its end, a [REQUIRE]
    fails and aborts it, it indexes a [std::vector] out of range, or the
    steps allowed to it were not enough. *)
Inductive Outcome (T : Type) : Type :=
| Finished (x : T)
| RequireFailed
| OutOfRange
| OutOfFuel.
Arguments Finished {T} _.
Arguments RequireFailed {T}.
Arguments OutOfRange {T}.
Arguments OutOfFuel {T}.

Definition bind {T U : Type} (m : Outcome T) (k : T -> Outcome U) : Outcome U :=
  match m with
  | Finished x => k x
  | RequireFailed => RequireFailed
  | OutOfRange => OutOfRange
  | OutOfFuel => OutOfFuel
  end.

Definition REQUIRE (b : bool) : Outcome unit :=
  if b then Finished tt else RequireFailed.

(** [v[i]] on a [std::vector]. *)
Definition at_index {T : Type} (v : list T) (i : Z) : Outcome T :=
  match v !! Z.to_nat i with
  | Some x => Finished x
  | None => OutOfRange
  end.

End Catch.

Import Catch.

Notation "m ;; k" := (Catch.bind m (fun _ => k))
  (at level 100, k at level 200, right associativity).
Notation "x <- m ;; k" := (Catch.bind m (fun x => k))
  (at level 100, m at next level, k at level 200, right associativity).

(** ** BRepCompare: compares two BRep objects using Catch macros *)

(** Modelled from the spec: [BRep<N>], whose header is not among the
    sources: an ordered sequence of vertices and an ordered sequence of
    branes.  [BRepCompare] uses nothing of the element types but
    [operator==], so they are left open here. *)
Record BRep (Vert Brane : Type) : Type := mkBRep {
  verts : list Vert;
  branes : list Brane
}.
Arguments mkBRep {Vert Brane} _ _.
Arguments verts {Vert Brane} _.
Arguments branes {Vert Brane} _.

(** [++i] on an [unsigned]: 32 bits, wrapping around. *)
Definition unsigned_incr (i : Z) : Z := (i + 1) mod 2 ^ 32.

(** [size()] of a [std::vector], a [size_t]. *)
Definition size {T : Type} (v : list T) : Z := Z.of_nat (length v).

Section BRepCompare.

Context {Vert Brane : Type}.
(** [operator==] of the two element types. *)
Variable vert_eq : Vert -> Vert -> bool.
Variable brane_eq : Brane -> Brane -> bool.

(** [for (unsigned i = ...; i < first.size(); ++i)
      REQUIRE(first[i] == second[i]);]
    from the current value of [i] on. *)
Fixpoint require_each {T : Type} (eq : T -> T -> bool)
    (fuel : nat) (i : Z) (first second : list T) : Outcome unit :=
  match fuel with
  | O => OutOfFuel
  | S fuel' =>
      if i <? size first then
        x <- at_index first i ;;
        y <- at_index second i ;;
        REQUIRE (eq x y) ;;
        require_each eq fuel' (unsigned_incr i) first second
      else Finished tt
  end.

Definition BRepCompare (fuel : nat) (first second : BRep Vert Brane)
  : Outcome unit :=
  REQUIRE (size (verts first) =? size (verts second)) ;;
  require_each vert_eq fuel 0 (verts first) (verts second) ;;
  REQUIRE (size (branes first) =? size (branes second)) ;;
  require_each brane_eq fuel 0 (branes first) (branes second).

(** The comparison succeeds: the test body runs to its end. *)
Definition BRepCompare_succeeds (first second : BRep Vert Brane) : Prop :=
  exists fuel, BRepCompare fuel first second = Finished tt.

(** Two sequences agree: equal length, and [==] at every index. *)
Definition agree {T : Type} (eq : T -> T -> bool) (a b : list T) : Prop :=
  length a = length b /\
  forall (i : nat) (x y : T), a !! i = Some x -> b !! i = Some y -> eq x y = true.

End BRepCompare.

(** [operator==] of two [Eigen::Vector3f]: every coefficient compares
    equal. *)
Definition Vector3f_eqb (v w : Vector3f) : bool :=
  forallb (fun A => Float32.eqb (coeff v A) (coeff w A)) all_axes.

(** A face of a [BRep<3>]: three vertex indices, 32 bits each. *)
Record Brane3 : Type := mkBrane3 { b0 : Z; b1 : Z; b2 : Z }.

Definition Brane3_eqb (a b : Brane3) : bool :=
  (b0 a =? b0 b) && (b1 a =? b1 b) && (b2 a =? b2 b).

Abbreviation BRep3 := (BRep Vector3f Brane3).

(** * The components the tests call *)

(** The tests build a [Tree], substitute oracles for its axes with
    [Tree::remap], and mesh both trees with [Mesh::render].  The tree, the
    region, the evaluator and the mesher are not among the sources; they
    are modelled here from the specification. *)

(** ** Tree and substitution *)

(** A clause held by an oracle node, with its dynamic type; the only class
    of clauses this file defines is [AxisOracleClause<A>]. *)
Inductive AnyClause : Type :=
| Clause_Axis (A : Axis) (c : AxisOracleClause A).

(** Modelled from the spec: the opcodes of the unary and binary
    operations of a tree, those the shapes of the tests use. *)
Inductive UnaryOp : Set := OP_NEG.

(** Modelled from the spec: the binary opcodes, those of the shapes of the
    tests and of the interval rules the specification names. *)
Inductive BinaryOp : Set := OP_ADD | OP_SUB | OP_MUL | OP_MIN | OP_MAX.

(** Modelled from the spec: [Tree] (the tree headers are not among the
    sources), a tagged variant over constant, coordinate variable, unary
    operation, binary operation and oracle node.  The operations are those
    the two shapes of the tests and the interval rules of the
    specification name. *)
Inductive Tree : Type :=
| T_const (c : float)
| T_var (A : Axis)
| T_unary (op : UnaryOp) (a : Tree)
| T_binary (op : BinaryOp) (a b : Tree)
| T_oracle (c : AnyClause).

(** Modelled from the spec: [Tree::remap], which returns a new tree with
    every coordinate leaf replaced by the corresponding replacement;
    constants and oracle nodes pass through unchanged. *)
Fixpoint remap (t x y z : Tree) : Tree :=
  match t with
  | T_const c => T_const c
  | T_var Axis0 => x
  | T_var Axis1 => y
  | T_var Axis2 => z
  | T_unary op a => T_unary op (remap a x y z)
  | T_binary op a b => T_binary op (remap a x y z) (remap b x y z)
  | T_oracle c => T_oracle c
  end.

(** [Tree(std::unique_ptr<OracleClause>(new AxisOracleClause<A>))] *)
Definition Tree_of_clause (A : Axis) : Tree :=
  T_oracle (Clause_Axis A mkAxisOracleClause).

(** Replaces X, Y, and Z with oracles that pretend to be them:
    [return t.remap(Tree(...<0>), Tree(...<1>), Tree(...<2>));] *)
Definition convertToOracleAxes (t : Tree) : Tree :=
  remap t (Tree_of_clause Axis0) (Tree_of_clause Axis1) (Tree_of_clause Axis2).

(** ** The shapes and regions of the tests *)

(** [Tree::X()], [Tree::Y()] and [Tree::Z()]: the coordinate leaves. *)
Definition Tree_X : Tree := T_var Axis0.
Definition Tree_Y : Tree := T_var Axis1.
Definition Tree_Z : Tree := T_var Axis2.

(** [1.5], converted to [float]. *)
Definition c1_5 : Tree := T_const (Float32.of_dyadic 3 (-1)).

(** The cube of the second test, as the source writes it:
    [max(max(max(-(X + 1.5), X - 1.5), max(-(Y + 1.5), Y - 1.5)),
         max(-(Z + 1.5), Z - 1.5))]. *)
Definition cube : Tree :=
  T_binary OP_MAX
    (T_binary OP_MAX
       (T_binary OP_MAX (T_unary OP_NEG (T_binary OP_ADD Tree_X c1_5))
                        (T_binary OP_SUB Tree_X c1_5))
       (T_binary OP_MAX (T_unary OP_NEG (T_binary OP_ADD Tree_Y c1_5))
                        (T_binary OP_SUB Tree_Y c1_5)))
    (T_binary OP_MAX (T_unary OP_NEG (T_binary OP_ADD Tree_Z c1_5))
                     (T_binary OP_SUB Tree_Z c1_5)).

(** Modelled from the spec: [sphere(r)] of [util/shapes.hpp], which is not
    among the sources: a sphere of radius [r] centred at the origin, as the
    zero set of [x*x + y*y + z*z - r*r]. *)
Definition sphere (r : float) : Tree :=
  T_binary OP_SUB
    (T_binary OP_ADD
       (T_binary OP_ADD (T_binary OP_MUL Tree_X Tree_X)
                        (T_binary OP_MUL Tree_Y Tree_Y))
       (T_binary OP_MUL Tree_Z Tree_Z))
    (T_const (SFmul Float32.prec Float32.emax r r)).

(** Modelled from the spec: [Region<3>], an axis-aligned box given by its
    lower and upper corners. *)
Record Region3 : Type := mkRegion3 { r_lower : Vector3f; r_upper : Vector3f }.

(** [Region<3> r({a, a, a}, {b, b, b})] *)
Definition cube_region (a b : float) : Region3 :=
  mkRegion3 (mkVector3f a a a) (mkVector3f b b b).

(** [-1, 1]^3, [-2.5, 2.5]^3 and [10, 11]^3. *)
Definition region_A : Region3 :=
  cube_region (Float32.of_int (-1)) (Float32.of_int 1).
Definition region_B : Region3 :=
  cube_region (Float32.of_dyadic (-5) (-1)) (Float32.of_dyadic 5 (-1)).

(** ** Arithmetic on scalars and intervals *)

Module Arith.

(** Modelled from the spec: the arithmetic of native operators on
    scalars, binary32 operations rounded to nearest. *)
Definition fadd : float -> float -> float := SFadd Float32.prec Float32.emax.
Definition fsub : float -> float -> float := SFsub Float32.prec Float32.emax.
Definition fmul : float -> float -> float := SFmul Float32.prec Float32.emax.
Definition fneg : float -> float := SFopp.

(** [std::min] and [std::max]. *)
Definition fmin (a b : float) : float := if Float32.ltb b a then b else a.
Definition fmax (a b : float) : float := if Float32.ltb a b then b else a.

(** Modelled from the spec: the value of a native operator from the
    values of its operands. *)
Definition value1 (op : UnaryOp) (a : float) : float :=
  match op with OP_NEG => fneg a end.

(** Modelled from the spec: the same for binary operators. *)
Definition value2 (op : BinaryOp) (a b : float) : float :=
  match op with
  | OP_ADD => fadd a b
  | OP_SUB => fsub a b
  | OP_MUL => fmul a b
  | OP_MIN => fmin a b
  | OP_MAX => fmax a b
  end.

(** Modelled from the spec: the interval rules of the evaluator.
    Addition adds bounds, multiplication takes the minimum and the maximum
    of the four corner products, max and min take the maximum and the
    minimum of the operands' bounds bound by bound; negation and
    subtraction are the usual ones. *)
Definition interval1 (op : UnaryOp) (a : Interval.I) : Interval.I :=
  match op with
  | OP_NEG => Interval.mkI (fneg (Interval.upper a)) (fneg (Interval.lower a))
  end.

(** Modelled from the spec: the interval rules of binary operators, as
    just described. *)
Definition interval2 (op : BinaryOp) (a b : Interval.I) : Interval.I :=
  let (al, au) := a in
  let (bl, bu) := b in
  match op with
  | OP_ADD => Interval.mkI (fadd al bl) (fadd au bu)
  | OP_SUB => Interval.mkI (fsub al bu) (fsub au bl)
  | OP_MUL =>
      let p1 := fmul al bl in let p2 := fmul al bu in
      let p3 := fmul au bl in let p4 := fmul au bu in
      Interval.mkI (fmin (fmin p1 p2) (fmin p3 p4))
                   (fmax (fmax p1 p2) (fmax p3 p4))
  | OP_MIN => Interval.mkI (fmin al bl) (fmin au bu)
  | OP_MAX => Interval.mkI (fmax al bl) (fmax au bu)
  end.

End Arith.

(** ** Oracles as the evaluator holds them *)

(** Modelled from the spec: binding an oracle to the region under
    evaluation and to a batch of samples ([OracleStorage::set], not among
    the sources). *)
Definition set_region (lo hi : Vector3f) (s : OracleStorage) : OracleStorage :=
  mkOracleStorage lo hi (points s).

(** Modelled from the spec: binding to a batch of samples. *)
Definition set_points (pts : list Vector3f) (s : OracleStorage) : OracleStorage :=
  mkOracleStorage (lower s) (upper s) pts.

(** Calls through a pointer to [Oracle]: the dynamic type selects the
    override. *)
Module Dispatch.

(** Modelled from the spec: binding through a pointer to [Oracle]. *)
Definition bind_region (lo hi : Vector3f) (obj : Object) : Object :=
  match obj with
  | Obj_AxisOracle A o => Obj_AxisOracle A (mkAxisOracle (set_region lo hi (base o)))
  end.

(** Modelled from the spec: binding a batch through a pointer. *)
Definition bind_points (pts : list Vector3f) (obj : Object) : Object :=
  match obj with
  | Obj_AxisOracle A o => Obj_AxisOracle A (mkAxisOracle (set_points pts (base o)))
  end.

Definition call_evalInterval (out : Interval.I) (obj : Object)
  : Interval.I * Object :=
  match obj with
  | Obj_AxisOracle A o =>
      let '(i, o') := evalInterval out o in (i, Obj_AxisOracle A o')
  end.

Definition call_evalPoint (out : float) (index : nat) (obj : Object)
  : option (float * Object) :=
  match obj with
  | Obj_AxisOracle A o =>
      '(v, o') ← evalPoint out index o; Some (v, Obj_AxisOracle A o')
  end.

Definition call_checkAmbiguous (out : list bool) (obj : Object)
  : list bool * Object :=
  match obj with
  | Obj_AxisOracle A o =>
      let '(m, o') := checkAmbiguous out o in (m, Obj_AxisOracle A o')
  end.

Definition call_evalDerivs (v : Vector3f) (index : nat) (obj : Object)
  : Vector3f * Object :=
  match obj with
  | Obj_AxisOracle A o =>
      let '(g, o') := evalDerivs v index o in (g, Obj_AxisOracle A o')
  end.

Definition call_evalFeatures (out : list Feature) (obj : Object)
  : list Feature * Object :=
  match obj with
  | Obj_AxisOracle A o =>
      let '(fs, o') := evalFeatures out o in (fs, Obj_AxisOracle A o')
  end.

Definition call_getOracle (c : AnyClause) (h : Heap) : unique_ptr * Heap :=
  match c with Clause_Axis A cl => getOracle cl h end.

(** Modelled from the spec: index-based queries over a bound batch of [n]
    samples, from index [i] on: the value at each index. *)
Fixpoint evalArray (n i : nat) (obj : Object) : option (list float * Object) :=
  match n with
  | O => Some ([], obj)
  | S n' =>
      '(v, obj) ← call_evalPoint Float32.zero i obj;
      '(vs, obj) ← evalArray n' (S i) obj;
      Some (v :: vs, obj)
  end.

(** Modelled from the spec: the value and the derivative at each index. *)
Fixpoint evalDerivArray (n i : nat) (obj : Object)
  : option (list (float * Vector3f) * Object) :=
  match n with
  | O => Some ([], obj)
  | S n' =>
      '(v, obj) ← call_evalPoint Float32.zero i obj;
      let '(g, obj) := call_evalDerivs Vector3f_Zero i obj in
      '(rs, obj) ← evalDerivArray n' (S i) obj;
      Some ((v, g) :: rs, obj)
  end.

End Dispatch.

(** ** Evaluator *)

(** Modelled from the spec: what an evaluator holds for a tree.  Every
    oracle node carries the oracle made for it by the node's clause; the
    evaluator owns that oracle, which is discarded with it. *)
Inductive Deck : Type :=
| D_const (c : float)
| D_var (A : Axis)
| D_unary (op : UnaryOp) (a : Deck)
| D_binary (op : BinaryOp) (a b : Deck)
| D_oracle (obj : Object).

(** Modelled from the spec: the oracle a clause manufactures for an
    evaluator: [getOracle] on the evaluator's own, empty store, and the
    object the returned pointer owns. *)
Definition make_oracle (c : AnyClause) : option Object :=
  let '(ptr, h) := Dispatch.call_getOracle c ∅ in
  l ← ptr; h !! l.

(** Modelled from the spec: the evaluator made for a tree, with a newly
    constructed oracle at every oracle node. *)
Fixpoint make_deck (t : Tree) : option Deck :=
  match t with
  | T_const c => Some (D_const c)
  | T_var A => Some (D_var A)
  | T_unary op a => a' ← make_deck a; Some (D_unary op a')
  | T_binary op a b =>
      a' ← make_deck a; b' ← make_deck b; Some (D_binary op a' b')
  | T_oracle c => obj ← make_oracle c; Some (D_oracle obj)
  end.

Section Walk.

Context {R : Type}.
Variable on_const : float -> R.
Variable on_var : Axis -> R.
Variable on_unary : UnaryOp -> R -> R.
Variable on_binary : BinaryOp -> R -> R -> R.
Variable on_oracle : Object -> option (R * Object).

(** Modelled from the spec: one pass over the tree in one mode.  Native
    operators combine the results of their operands, and an oracle node
    delegates to its oracle, whose state the pass may change. *)
Fixpoint walk (d : Deck) : option (R * Deck) :=
  match d with
  | D_const c => Some (on_const c, d)
  | D_var A => Some (on_var A, d)
  | D_unary op a => '(ra, a') ← walk a; Some (on_unary op ra, D_unary op a')
  | D_binary op a b =>
      '(ra, a') ← walk a;
      '(rb, b') ← walk b;
      Some (on_binary op ra rb, D_binary op a' b')
  | D_oracle obj => '(r, obj') ← on_oracle obj; Some (r, D_oracle obj')
  end.

End Walk.

(** Modelled from the spec: the rules by which native operators combine
    derivatives, ambiguity and features.  The specification leaves them to
    the implementation, so they are a parameter of the evaluator. *)
Record PointRules : Type := mkPointRules {
  deriv1 : UnaryOp -> float * Vector3f -> Vector3f;
  deriv2 : BinaryOp -> float * Vector3f -> float * Vector3f -> Vector3f;
  ambig1 : UnaryOp -> float * bool -> bool;
  ambig2 : BinaryOp -> float * bool -> float * bool -> bool;
  feat0 : float -> list Feature;
  feat1 : UnaryOp -> float * list Feature -> list Feature;
  feat2 : BinaryOp -> float * list Feature -> float * list Feature -> list Feature
}.

(** The five modes of the evaluator.  A native axis [A] has the
    coordinate along [A] as its value, the bounds of the region along [A]
    as its interval and the unit vector along [A] as its derivative and
    only feature, and is never ambiguous. *)
Section Evaluator.

Variable rules : PointRules.

(** Modelled from the spec: the interval bound over the region with
    corners [lo] and [hi]; an oracle is bound to the region and asked. *)
Definition eval_interval (lo hi : Vector3f) : Deck -> option (Interval.I * Deck) :=
  walk (fun c => Interval.mkI c c)
       (fun A => Interval.mkI (coeff lo A) (coeff hi A))
       Arith.interval1 Arith.interval2
       (fun obj =>
          Some (Dispatch.call_evalInterval (Interval.mkI Float32.zero Float32.zero)
                  (Dispatch.bind_region lo hi obj))).

(** Modelled from the spec: the values at a batch of samples; an oracle
    is bound to the batch and asked index by index. *)
Definition eval_values (pts : list Vector3f) : Deck -> option (list float * Deck) :=
  walk (fun c => repeat c (length pts))
       (fun A => map (fun p => coeff p A) pts)
       (fun op => map (Arith.value1 op))
       (fun op => zip_with (Arith.value2 op))
       (fun obj =>
          Dispatch.evalArray (length pts) 0 (Dispatch.bind_points pts obj)).

(** Modelled from the spec: the values and derivatives at a batch. *)
Definition eval_derivs (pts : list Vector3f)
  : Deck -> option (list (float * Vector3f) * Deck) :=
  walk (fun c => repeat (c, Vector3f_Zero) (length pts))
       (fun A => map (fun p => (coeff p A, unit_vector A)) pts)
       (fun op => map (fun r => (Arith.value1 op (fst r), deriv1 rules op r)))
       (fun op => zip_with (fun ra rb =>
                    (Arith.value2 op (fst ra) (fst rb), deriv2 rules op ra rb)))
       (fun obj =>
          Dispatch.evalDerivArray (length pts) 0 (Dispatch.bind_points pts obj)).

(** Modelled from the spec: the ambiguity mask over a batch; an oracle
    is handed a mask that is false everywhere. *)
Definition eval_ambiguous (pts : list Vector3f)
  : Deck -> option (list (float * bool) * Deck) :=
  walk (fun c => repeat (c, false) (length pts))
       (fun A => map (fun p => (coeff p A, false)) pts)
       (fun op => map (fun r => (Arith.value1 op (fst r), ambig1 rules op r)))
       (fun op => zip_with (fun ra rb =>
                    (Arith.value2 op (fst ra) (fst rb), ambig2 rules op ra rb)))
       (fun obj =>
          '(vs, obj) ← Dispatch.evalArray (length pts) 0
                         (Dispatch.bind_points pts obj);
          let '(mask, obj) :=
            Dispatch.call_checkAmbiguous (repeat false (length pts)) obj in
          Some (zip vs mask, obj)).

(** Modelled from the spec: the features at one sample; an oracle is
    handed an empty output. *)
Definition eval_features (p : Vector3f)
  : Deck -> option (float * list Feature * Deck) :=
  walk (fun c => (c, feat0 rules c))
       (fun A => (coeff p A, [mkFeature (unit_vector A)]))
       (fun op r => (Arith.value1 op (fst r), feat1 rules op r))
       (fun op ra rb => (Arith.value2 op (fst ra) (fst rb), feat2 rules op ra rb))
       (fun obj =>
          '(v, obj) ← Dispatch.call_evalPoint Float32.zero 0
                        (Dispatch.bind_points [p] obj);
          let '(fs, obj) := Dispatch.call_evalFeatures [] obj in
          Some ((v, fs), obj)).

End Evaluator.

(** ** Mesher *)

(** Modelled from the spec: the steps of the mesher that consume
    evaluator output.  A step either ends with a result, gives up, or puts
    one query to the evaluator in one of its five modes and goes on from
    the answer. *)
Inductive Prog (R : Type) : Type :=
| Ret (r : R)
| Abort
| AskInterval (lo hi : Vector3f) (k : Interval.I -> Prog R)
| AskValues (pts : list Vector3f) (k : list float -> Prog R)
| AskDerivs (pts : list Vector3f) (k : list Vector3f -> Prog R)
| AskAmbiguous (pts : list Vector3f) (k : list bool -> Prog R)
| AskFeatures (p : Vector3f) (k : list Feature -> Prog R).
Arguments Ret {R} _.
Arguments Abort {R}.
Arguments AskInterval {R} _ _ _.
Arguments AskValues {R} _ _.
Arguments AskDerivs {R} _ _.
Arguments AskAmbiguous {R} _ _.
Arguments AskFeatures {R} _ _.

(** Modelled from the spec: the subdivision of a region into 2^3 children
    of half the extent that share the parent's centre, in a fixed order. *)
Definition centre (r : Region3) (A : Axis) : float :=
  Arith.fmul (Float32.of_dyadic 1 (-1))
             (Arith.fadd (coeff (r_lower r) A) (coeff (r_upper r) A)).

(** Modelled from the spec: the child in the lower or upper half along
    each axis. *)
Definition child (r : Region3) (hx hy hz : bool) : Region3 :=
  let lo (h : bool) (A : Axis) := if h then centre r A else coeff (r_lower r) A in
  let hi (h : bool) (A : Axis) := if h then coeff (r_upper r) A else centre r A in
  mkRegion3 (mkVector3f (lo hx Axis0) (lo hy Axis1) (lo hz Axis2))
            (mkVector3f (hi hx Axis0) (hi hy Axis1) (hi hz Axis2)).

(** Modelled from the spec: the eight children, in a fixed order. *)
Definition subdivide (r : Region3) : list Region3 :=
  [child r false false false; child r true false false;
   child r false true false;  child r true true false;
   child r false false true;  child r true false true;
   child r false true true;   child r true true true].

(** Modelled from the spec: what the specification leaves to the
    implementation, as a parameter of the mesher: the depth and
    minimum-size policy, and how a leaf cell is meshed and stitched to the
    mesh built so far. *)
Record Policy : Type := mkPolicy {
  max_depth : nat;
  small_enough : Region3 -> bool;
  mesh_leaf : Region3 -> BRep3 -> Prog BRep3
}.

(** Modelled from the spec: the bound is entirely positive or entirely
    negative. *)
Definition does_not_straddle_zero (i : Interval.I) : bool :=
  Float32.ltb Float32.zero (Interval.lower i)
  || Float32.ltb (Interval.upper i) Float32.zero.

(** Modelled from the spec: the mesh with no vertex and no face. *)
Definition empty_BRep : BRep3 := mkBRep [] [].

Section Mesher.

Variable rules : PointRules.
Variable policy : Policy.

(** Modelled from the spec: the steps of the mesher run against an
    evaluator, each query answered in its mode. *)
Fixpoint run {R : Type} (m : Prog R) (d : Deck) : option (R * Deck) :=
  match m with
  | Ret r => Some (r, d)
  | Abort => None
  | AskInterval lo hi k =>
      '(i, d) ← eval_interval lo hi d; run (k i) d
  | AskValues pts k =>
      '(vs, d) ← eval_values pts d; run (k vs) d
  | AskDerivs pts k =>
      '(rs, d) ← eval_derivs rules pts d; run (k (snd <$> rs)) d
  | AskAmbiguous pts k =>
      '(rs, d) ← eval_ambiguous rules pts d; run (k (snd <$> rs)) d
  | AskFeatures p k =>
      '(r, d) ← eval_features rules p d; run (k (snd r)) d
  end.

(** Modelled from the spec: the cells of a list, in order, each extending
    the mesh so far. *)
Fixpoint mesh_cells (visit : Region3 -> BRep3 -> Deck -> option (BRep3 * Deck))
    (cells : list Region3) (acc : BRep3) (d : Deck) : option (BRep3 * Deck) :=
  match cells with
  | [] => Some (acc, d)
  | r :: cells' =>
      '(acc, d) ← visit r acc d; mesh_cells visit cells' acc d
  end.

(** Modelled from the spec: one cell of the subdivision.  The cell is
    bounded by interval evaluation and pruned when the bound does not
    straddle zero; otherwise it is meshed as a leaf, when the policy says
    so, or split into its children, which are visited in order. *)
Fixpoint mesh_cell (depth : nat) (r : Region3) (acc : BRep3) (d : Deck)
  : option (BRep3 * Deck) :=
  '(i, d) ← eval_interval (r_lower r) (r_upper r) d;
  if does_not_straddle_zero i then Some (acc, d)
  else
    match depth with
    | O => run (mesh_leaf policy r acc) d
    | S depth' =>
        if small_enough policy r then run (mesh_leaf policy r acc) d
        else mesh_cells (mesh_cell depth') (subdivide r) acc d
    end.

(** Modelled from the spec: [Mesh::render].  Rendering starts from the
    empty mesh and either succeeds with the complete mesh or fails as a
    whole. *)
Definition render (t : Tree) (r : Region3) : option BRep3 :=
  d ← make_deck t;
  '(mesh, _) ← mesh_cell (max_depth policy) r empty_BRep d;
  Some mesh.

End Mesher.

(** ** The evaluator of a tree and of its oracle counterpart *)

(** [sim d d']: [d'] is [d] with some of its native axes held as axis
    oracles instead, in whatever state those oracles are. *)
Inductive sim : Deck -> Deck -> Prop :=
| sim_const (c : float) : sim (D_const c) (D_const c)
| sim_var (A : Axis) : sim (D_var A) (D_var A)
| sim_axis (A : Axis) (o : AxisOracle A) :
    sim (D_var A) (D_oracle (Obj_AxisOracle A o))
| sim_unary (op : UnaryOp) (a a' : Deck) :
    sim a a' -> sim (D_unary op a) (D_unary op a')
| sim_binary (op : BinaryOp) (a a' b b' : Deck) :
    sim a a' -> sim b b' -> sim (D_binary op a b) (D_binary op a' b')
| sim_oracle (obj : Object) : sim (D_oracle obj) (D_oracle obj).

(** Two passes end alike: both fail, or both give the same result and
    leave evaluators that are still counterparts. *)
Definition sim_result {R : Type} (x y : option (R * Deck)) : Prop :=
  match x, y with
  | Some (r, d), Some (r', d') => r = r' /\ sim d d'
  | None, None => True
  | _, _ => False
  end.

(** The native coordinate leaves of a tree, left to right. *)
Fixpoint native_axes (t : Tree) : list Axis :=
  match t with
  | T_const _ | T_oracle _ => []
  | T_var A => [A]
  | T_unary _ a => native_axes a
  | T_binary _ a b => native_axes a ++ native_axes b
  end.


(** ** A small mesher for the examples *)

(** Rules for the examples: the derivative and the features of the operand
    that decides a minimum or maximum, both when the operands tie. *)
Definition sample_rules : PointRules :=
  let pick (op : BinaryOp) {T : Type} (a b : float * T) (both : T -> T -> T)
           (other : T) : T :=
    match op with
    | OP_MAX => if Float32.ltb (fst a) (fst b) then snd b
                else if Float32.ltb (fst b) (fst a) then snd a
                else both (snd a) (snd b)
    | OP_MIN => if Float32.ltb (fst a) (fst b) then snd a
                else if Float32.ltb (fst b) (fst a) then snd b
                else both (snd a) (snd b)
    | _ => other
    end in
  let vmap2 (f : float -> float -> float) (v w : Vector3f) : Vector3f :=
    mkVector3f (f (vx v) (vx w)) (f (vy v) (vy w)) (f (vz v) (vz w)) in
  let scale (k : float) (v : Vector3f) : Vector3f :=
    mkVector3f (Arith.fmul k (vx v)) (Arith.fmul k (vy v)) (Arith.fmul k (vz v)) in
  let d2 (op : BinaryOp) (a b : float * Vector3f) : Vector3f :=
    match op with
    | OP_ADD => vmap2 Arith.fadd (snd a) (snd b)
    | OP_SUB => vmap2 Arith.fsub (snd a) (snd b)
    | OP_MUL => vmap2 Arith.fadd (scale (fst b) (snd a)) (scale (fst a) (snd b))
    | _ => pick op a b (fun g _ => g) (snd a)
    end in
  mkPointRules
    (fun _ r => scale (Float32.of_int (-1)) (snd r))
    d2
    (fun _ r => snd r)
    (fun op a b => snd a || snd b
                   || match op with
                      | OP_MIN | OP_MAX => Float32.eqb (fst a) (fst b)
                      | _ => false
                      end)
    (fun _ => [mkFeature Vector3f_Zero])
    (fun _ r => (fun f => mkFeature (scale (Float32.of_int (-1)) (deriv f))) <$> snd r)
    (fun op a b =>
       pick op a b (fun fa fb => fa ++ fb)
            ((fun f => mkFeature (d2 op (fst a, deriv f) (fst b, deriv f))) <$> snd a)).

(** A leaf is meshed when its two corners lie on different sides of the
    surface: one vertex at the lower corner, one per feature found there
    when the corner is ambiguous, and one face on the first new vertex. *)
Definition sample_leaf (r : Region3) (acc : BRep3) : Prog BRep3 :=
  AskValues [r_lower r; r_upper r] (fun vs =>
    match vs with
    | [a; b] =>
        if xorb (Float32.ltb a Float32.zero) (Float32.ltb b Float32.zero) then
          AskAmbiguous [r_lower r] (fun mask =>
            AskDerivs [r_lower r] (fun gs =>
              AskFeatures (r_lower r) (fun fs =>
                let n := size (verts acc) in
                let extra := if decide (mask = [true]) then deriv <$> fs else gs in
                Ret (mkBRep (verts acc ++ r_lower r :: extra)
                            (branes acc ++ [mkBrane3 n n n])))))
        else Ret acc
    | _ => Abort
    end).

Definition sample_policy (depth : nat) : Policy :=
  mkPolicy depth (fun _ => false) sample_leaf.






(** ** The function an axis oracle mimics, over the reals *)

Definition Rpoint : Type := Axis -> R.

(** The point of space a sample stands for. *)
Definition Vector3f_to_R (v : Vector3f) : Rpoint :=
  fun i => Float32.to_R (coeff v i).

(** The coordinate function along [A]. *)
Definition coordinate (A : Axis) (p : Rpoint) : R := p A.

(** [p] with its coordinate along [i] replaced by [t]. *)
Definition Rpoint_set (p : Rpoint) (i : Axis) (t : R) : Rpoint :=
  fun j => if decide (i = j) then t else p j.

(** [g] is the gradient of [f] at [p]: along every axis [i], the partial
    derivative of [f] at [p] is the component [i] of [g]. *)
Definition is_gradient (f : Rpoint -> R) (p : Rpoint) (g : Vector3f) : Prop :=
  forall i : Axis,
    derivable_pt_lim (fun t => f (Rpoint_set p i t)) (p i)
                     (Float32.to_R (coeff g i)).


(** ** Values for the examples *)

(** A sample oracle for the examples: the region [-1,1]^3 and a batch of
    two samples. *)
Definition sample_storage : OracleStorage :=
  let m1 := Float32.of_int (-1) in
  let p1 := Float32.of_int 1 in
  let h := Float32.of_dyadic 1 (-1) in
  mkOracleStorage (mkVector3f m1 m1 m1) (mkVector3f p1 p1 p1)
    [mkVector3f h Float32.zero m1; mkVector3f Float32.zero (Float32.of_dyadic 3 (-2)) h].

(** Two meshes of one triangle for the examples. *)
Definition triangle : BRep3 :=
  let o := Float32.zero in
  let i := Float32.one in
  mkBRep [mkVector3f o o o; mkVector3f i o o; mkVector3f o i o]
         [mkBrane3 0 1 2].

Definition triangle_reordered : BRep3 :=
  let o := Float32.zero in
  let i := Float32.one in
  mkBRep [mkVector3f i o o; mkVector3f o o o; mkVector3f o i o]
         [mkBrane3 1 0 2].

(** * More of the test file *)

(** ** The order of binary32 values *)

Module FloatOrder.

Definition is_nan (a : float) : bool :=
  match a with S754_nan => true | _ => false end.

(** The value with the sign of a zero forgotten: [==] cannot tell the two
    zeros apart, and tells every other two values that are not NaN apart. *)
Definition canon (a : float) : float :=
  match a with S754_zero _ => S754_zero false | _ => a end.

(** A key whose lexicographic order is the order of the comparisons on
    values that are not NaN. *)
Definition key (a : float) : Z * Z * Z :=
  match a with
  | S754_zero _ => (0, 0, 0)
  | S754_infinity s => (if s then -2 else 2, 0, 0)
  | S754_finite s m e => if s then (-1, - e, - Zpos m) else (1, e, Zpos m)
  | S754_nan => (0, 0, 0)
  end.

Definition lex_lt (a b : Z * Z * Z) : Prop :=
  let '(a1, a2, a3) := a in
  let '(b1, b2, b3) := b in
  a1 < b1 \/ (a1 = b1 /\ (a2 < b2 \/ (a2 = b2 /\ a3 < b3))).

Definition lex_le (a b : Z * Z * Z) : Prop := lex_lt a b \/ a = b.

(** The rank of a value among the values of a list: how many of them are
    below it. *)
Definition rank (S : list float) (u : float) : Z :=
  Z.of_nat (length (List.filter (fun v => Float32.ltb v u) S)).

End FloatOrder.

(** A vertex has a NaN coordinate. *)
Definition Vector3f_has_nan (v : Vector3f) : bool :=
  existsb (fun A => FloatOrder.is_nan (coeff v A)) all_axes.

Definition Vector3f_canon (v : Vector3f) : Vector3f :=
  mkVector3f (FloatOrder.canon (vx v)) (FloatOrder.canon (vy v))
             (FloatOrder.canon (vz v)).

(** ** Calls in a row *)

(** [n] calls of [evalFeatures] on the same output, one after the other. *)
Fixpoint evalFeatures_times {O : Type} `{Oracle O} (n : nat)
    (out : list Feature) (o : O) : list Feature * O :=
  match n with
  | O => (out, o)
  | S n' => let '(out', o') := evalFeatures out o in evalFeatures_times n' out' o'
  end.

(** [n] calls of [getOracle] on the same clause, one after the other; the
    pointers are kept, so every object made stays alive. *)
Fixpoint getOracle_times {C : Type} `{OracleClause C} (n : nat) (c : C) (h : Heap)
  : list unique_ptr * Heap :=
  match n with
  | O => ([], h)
  | S n' =>
      let '(p, h1) := getOracle c h in
      let '(ps, h2) := getOracle_times n' c h1 in
      (p :: ps, h2)
  end.

(** ** cubeAsOracle: the cube oracle of the disabled test *)

(** The last test of the file and its oracle are excluded from compilation
    ([#if 0]); the oracle is written against an earlier interface, with one
    point per call.  The three member functions that work on a point are
    embedded here.  [abs] is applied to [float] operands and is read as the
    absolute value of the float.  [getRange] is left out: it computes in a
    mix of [double] and the coordinate type of [Region], which the sources
    do not show. *)
Module cubeAsOracle.

Definition abs (a : float) : float := SFabs a.

(** [a >= b], [a <= b] and [a == b] on floats. *)
Definition ge (a b : float) : bool := Float32.leb b a.
Definition le (a b : float) : bool := Float32.leb a b.
Definition eq (a b : float) : bool := Float32.eqb a b.

(** The literals [0.f], [1.f], [-1.f] and [1.5f]. *)
Definition f0 : float := Float32.zero.
Definition f1 : float := Float32.one.
Definition fm1 : float := SFopp Float32.one.
Definition f1_5 : float := Float32.of_dyadic 3 (-1).

(** [GradientsWithEpsilons::USECLOSEST], the only value of its kind the
    source names. *)
Inductive EpsilonsHandling : Set := USECLOSEST.

(** [{ out, GradientsWithEpsilons::USECLOSEST }] *)
Record GradientsWithEpsilons : Type := mkGradients {
  gradients : list Vector3f;
  handling : EpsilonsHandling
}.

Definition push_back {T : Type} (out : list T) (v : T) : list T := out ++ [v].

(** [getGradients(Eigen::Vector3f point)] *)
Definition getGradients (point : Vector3f) : GradientsWithEpsilons :=
  let x := vx point in
  let y := vy point in
  let z := vz point in
  let out : list Vector3f := [] in
  let out :=
    if ge (abs x) (Arith.fmax (abs y) (abs z)) then
      let out := if ge x f0 then push_back out (mkVector3f f1 f0 f0) else out in
      let out := if le x f0 then push_back out (mkVector3f fm1 f0 f0) else out in
      out
    else out in
  let out :=
    if ge (abs y) (Arith.fmax (abs x) (abs z)) then
      let out := if ge y f0 then push_back out (mkVector3f f0 f1 f0) else out in
      let out := if le y f0 then push_back out (mkVector3f f0 fm1 f0) else out in
      out
    else out in
  let out :=
    if ge (abs z) (Arith.fmax (abs y) (abs x)) then
      let out := if ge z f0 then push_back out (mkVector3f f0 f0 f1) else out in
      let out := if le z f0 then push_back out (mkVector3f f0 f0 fm1) else out in
      out
    else out in
  mkGradients out USECLOSEST.

(** [isAmbiguous(Eigen::Vector3f point)] *)
Definition isAmbiguous (point : Vector3f) : bool :=
  let x := vx point in
  let y := vy point in
  let z := vz point in
  if eq (abs x) (abs y) then ge (abs x) (abs z)
  else eq (Arith.fmax (abs x) (abs y)) (abs z).

(** [getValue(Eigen::Vector3f point)]:
    [std::max({ abs(x), abs(y), abs(z) }) - 1.5f], the maximum of an
    initialiser list being the leftmost greatest element. *)
Definition getValue (point : Vector3f) : float :=
  let x := vx point in
  let y := vy point in
  let z := vz point in
  Arith.fsub (Arith.fmax (Arith.fmax (abs x) (abs y)) (abs z)) f1_5.

End cubeAsOracle.

(** ** Meshes for further examples *)

(** A mesh of 2^32 vertices, one more than the 32-bit counter of
    [BRepCompare] can index. *)
Definition huge_mesh : BRep3 :=
  mkBRep (replicate (Z.to_nat (2 ^ 32)) Vector3f_Zero) [].

(** Three meshes of one vertex and one brane that differ only in the signs
    of the zero coordinates of the vertex. *)
Definition zeros_pp : BRep3 :=
  mkBRep [mkVector3f (S754_zero false) Float32.one (S754_zero false)]
         [mkBrane3 0 0 0].
Definition zeros_np : BRep3 :=
  mkBRep [mkVector3f (S754_zero true) Float32.one (S754_zero false)]
         [mkBrane3 0 0 0].
Definition zeros_nn : BRep3 :=
  mkBRep [mkVector3f (S754_zero true) Float32.one (S754_zero true)]
         [mkBrane3 0 0 0].

(** * Properties of the embedded code *)

(** ** Scalars and vectors *)

Lemma of_int_1 : Float32.of_int 1 = S754_finite false 8388608 (-23).
Proof. reflexivity. Qed.

Lemma set_coeff_Zero_unit (A : Axis) :
  set_coeff Vector3f_Zero A (Float32.of_int 1) = unit_vector A.
Proof. destruct A; reflexivity. Qed.

Lemma coeff_unit_vector (A i : Axis) :
  coeff (unit_vector A) i = if decide (A = i) then Float32.one else Float32.zero.
Proof. destruct A, i; reflexivity. Qed.

Lemma to_R_one : Float32.to_R Float32.one = 1%R.
Proof.
  unfold Float32.one. rewrite of_int_1. unfold Float32.to_R, powerRZ.
  simpl. lra.
Qed.

Lemma to_R_zero : Float32.to_R Float32.zero = 0%R.
Proof. reflexivity. Qed.

(** ** AxisOracle<A> *)

Section AxisOracleFacts.

Context {A : Axis}.
Implicit Types (this that : AxisOracle A) (p : Vector3f).

Lemma evalPoint_Some this index p out :
  points (base this) !! index = Some p ->
  evalPoint out index this = Some (coeff p A, this).
Proof. intros Hp. cbn. unfold AxisOracleImpl.evalPoint. by rewrite Hp. Qed.

Lemma evalPoint_None this index out :
  points (base this) !! index = None -> evalPoint out index this = None.
Proof. intros Hp. cbn. unfold AxisOracleImpl.evalPoint. by rewrite Hp. Qed.

Lemma evalInterval_eq this out :
  evalInterval out this
  = (Interval.mkI (coeff (lower (base this)) A) (coeff (upper (base this)) A),
     this).
Proof. reflexivity. Qed.

Lemma evalDerivs_eq this v index :
  evalDerivs v index this = (unit_vector A, this).
Proof.
  cbn. unfold AxisOracleImpl.evalDerivs. by rewrite set_coeff_Zero_unit.
Qed.

Lemma evalFeatures_eq this out :
  evalFeatures out this = (out ++ [mkFeature (unit_vector A)], this).
Proof.
  cbn. unfold AxisOracleImpl.evalFeatures. by rewrite set_coeff_Zero_unit.
Qed.

Lemma checkAmbiguous_eq this out : checkAmbiguous out this = (out, this).
Proof. reflexivity. Qed.

End AxisOracleFacts.

Lemma inside_axis (lo hi p : Vector3f) (A : Axis) :
  inside lo hi p = true ->
  Float32.leb (coeff lo A) (coeff p A) = true
  /\ Float32.leb (coeff p A) (coeff hi A) = true.
Proof.
  unfold inside. rewrite forallb_forall. intros H.
  apply andb_prop, (H A). destruct A; cbn; tauto.
Qed.

(** The coordinate function has the unit vector as its gradient, at every
    point. *)
Lemma coordinate_gradient (A : Axis) (p : Rpoint) :
  is_gradient (coordinate A) p (unit_vector A).
Proof.
  intros i. rewrite coeff_unit_vector. unfold coordinate, Rpoint_set.
  destruct (decide (A = i)) as [->|Hne].
  - rewrite to_R_one.
    eapply derivable_pt_lim_ext; [|apply derivable_pt_lim_id].
    intros t. unfold id. by rewrite decide_True.
  - rewrite to_R_zero.
    eapply derivable_pt_lim_ext; [|apply (derivable_pt_lim_const (p A))].
    intros t. unfold fct_cte. rewrite decide_False; [done|congruence].
Qed.

Example evalPoint_sample :
  fst <$> evalPoint Float32.zero 1 (@mkAxisOracle Axis1 sample_storage)
  = Some (Float32.of_dyadic 3 (-2)).
Proof. reflexivity. Qed.

Example evalInterval_sample :
  fst (evalInterval (Interval.mkI Float32.zero Float32.zero)
         (@mkAxisOracle Axis2 sample_storage))
  = Interval.mkI (Float32.of_int (-1)) (Float32.of_int 1).
Proof. reflexivity. Qed.

(** C3 (interval soundness of the axis oracle).  For every region held by
    the oracle and every sample of the bound batch that lies inside that
    region, the value [evalPoint] returns (the sample's coordinate along
    [A]) lies within the interval [evalInterval] returns for the region,
    which is [lower(A), upper(A)]. *)
Theorem AxisOracle_interval_sound (A : Axis) (this : AxisOracle A)
    (index : nat) (p : Vector3f) (out_p : float) (out_i : Interval.I) :
  points (base this) !! index = Some p ->
  inside (lower (base this)) (upper (base this)) p = true ->
  exists (v : float) (i : Interval.I),
    evalPoint out_p index this = Some (v, this)
    /\ evalInterval out_i this = (i, this)
    /\ v = coeff p A
    /\ Interval.lower i = coeff (lower (base this)) A
    /\ Interval.upper i = coeff (upper (base this)) A
    /\ Interval.contains i v = true.
Proof.
  intros Hp Hin.
  exists (coeff p A), (Interval.mkI (coeff (lower (base this)) A)
                                    (coeff (upper (base this)) A)).
  rewrite (evalPoint_Some _ _ _ _ Hp), evalInterval_eq.
  repeat split.
  destruct (inside_axis _ _ _ A Hin) as [Hlo Hhi].
  unfold Interval.contains. cbn. by rewrite Hlo, Hhi.
Qed.

Lemma AxisOracle_interval_sound_witness :
  exists (v : float) (i : Interval.I),
    evalPoint Float32.zero 0 (@mkAxisOracle Axis2 sample_storage)
      = Some (v, @mkAxisOracle Axis2 sample_storage)
    /\ evalInterval (Interval.mkI Float32.zero Float32.zero)
         (@mkAxisOracle Axis2 sample_storage)
       = (i, @mkAxisOracle Axis2 sample_storage)
    /\ v = Float32.of_int (-1)
    /\ Interval.lower i = Float32.of_int (-1)
    /\ Interval.upper i = Float32.of_int 1
    /\ Interval.contains i v = true.
Proof.
  apply (AxisOracle_interval_sound Axis2 (mkAxisOracle sample_storage) 0
           (mkVector3f (Float32.of_dyadic 1 (-1)) Float32.zero (Float32.of_int (-1))));
    reflexivity.
Defined.

(** C5 ([evalPoint] is the sample's coordinate).  For every index of the
    bound batch, [evalPoint] returns the coordinate along [A] of the sample
    at that index and leaves the oracle as it was; the value does not
    depend on what the output held before, nor on anything but the sample:
    a second call on the oracle the first call leaves, and a call on any
    oracle bound to the same points, return the same value. *)
Theorem AxisOracle_evalPoint_coordinate (A : Axis) (this : AxisOracle A)
    (index : nat) (p : Vector3f) (out : float) :
  points (base this) !! index = Some p ->
  evalPoint out index this = Some (coeff p A, this)
  /\ (forall (v : float) (this' : AxisOracle A) (out' : float),
        evalPoint out index this = Some (v, this') ->
        evalPoint out' index this' = Some (v, this'))
  /\ (forall (that : AxisOracle A) (out' : float),
        points (base that) = points (base this) ->
        fst <$> evalPoint out' index that = fst <$> evalPoint out index this)
  /\ (forall (that : AxisOracle A) (index' : nat) (out' : float),
        points (base that) !! index' = Some p ->
        fst <$> evalPoint out' index' that = Some (coeff p A)).
Proof.
  intros Hp. rewrite (evalPoint_Some _ _ _ out Hp). repeat split.
  - intros v this' out' [= <- <-]. by apply evalPoint_Some.
  - intros that out' Heq.
    rewrite (evalPoint_Some that index p out'); [done|]. by rewrite Heq.
  - intros that index' out' Hq. by rewrite (evalPoint_Some that index' p out').
Qed.

Lemma AxisOracle_evalPoint_coordinate_witness :
  evalPoint Float32.one 1 (@mkAxisOracle Axis1 sample_storage)
  = Some (Float32.of_dyadic 3 (-2), @mkAxisOracle Axis1 sample_storage).
Proof.
  exact (proj1 (AxisOracle_evalPoint_coordinate Axis1
                  (mkAxisOracle sample_storage) 1
                  (mkVector3f Float32.zero (Float32.of_dyadic 3 (-2))
                              (Float32.of_dyadic 1 (-1)))
                  Float32.one eq_refl)).
Defined.

(** Outside the bound batch there is no value. *)
Lemma AxisOracle_evalPoint_out_of_batch (A : Axis) (this : AxisOracle A)
    (index : nat) (out : float) :
  (length (points (base this)) <= index)%nat -> evalPoint out index this = None.
Proof. intros H. apply evalPoint_None. by apply lookup_ge_None. Qed.

(** C6 ([evalDerivs] writes the unit vector).  For every index, every
    bound batch and whatever the output held before, [evalDerivs] writes the
    vector whose components are all zero except component [A], which is 1,
    and leaves the oracle as it was.  Read as reals, that vector is the
    gradient, at every point of space, of the coordinate function along
    [A], which is the value [evalPoint] gives at a sample. *)
Theorem AxisOracle_evalDerivs_unit (A : Axis) (this : AxisOracle A)
    (v : Vector3f) (index : nat) :
  evalDerivs v index this = (unit_vector A, this)
  /\ (forall i : Axis,
        coeff (fst (evalDerivs v index this)) i
        = if decide (i = A) then Float32.of_int 1 else Float32.zero)
  /\ (forall (that : AxisOracle A) (v' : Vector3f) (index' : nat),
        fst (evalDerivs v' index' that) = fst (evalDerivs v index this))
  /\ (forall p : Rpoint,
        is_gradient (coordinate A) p (fst (evalDerivs v index this)))
  /\ (forall (s : Vector3f) (out : float),
        points (base this) !! index = Some s ->
        Float32.to_R <$> (fst <$> evalPoint out index this)
        = Some (coordinate A (Vector3f_to_R s))).
Proof.
  rewrite evalDerivs_eq. repeat split.
  - intros i. cbn. rewrite coeff_unit_vector.
    destruct (decide (A = i)), (decide (i = A)); first [reflexivity | congruence].
  - intros that v' index'. by rewrite evalDerivs_eq.
  - intros p. apply coordinate_gradient.
  - intros s out Hs. by rewrite (evalPoint_Some _ _ _ out Hs).
Qed.

(** C10 ([checkAmbiguous] writes nothing).  For every bound batch, the
    mask passed to [checkAmbiguous] is on exit exactly what it was on entry,
    and so is the oracle.  Hence every sample is reported as not ambiguous
    on exit if and only if the caller passed a mask that was false
    everywhere. *)
Theorem AxisOracle_checkAmbiguous_frame (A : Axis) (this : AxisOracle A)
    (mask : list bool) :
  checkAmbiguous mask this = (mask, this)
  /\ (forall i : nat, fst (checkAmbiguous mask this) !! i = mask !! i)
  /\ ((forall (i : nat) (b : bool),
         fst (checkAmbiguous mask this) !! i = Some b -> b = false)
      <-> (forall (i : nat) (b : bool), mask !! i = Some b -> b = false)).
Proof. rewrite checkAmbiguous_eq. cbn. tauto. Qed.

(** A mask that holds a mark on entry still holds it on exit. *)
Example checkAmbiguous_keeps_marks :
  fst (checkAmbiguous [false; true] (@mkAxisOracle Axis0 sample_storage))
  = [false; true].
Proof. reflexivity. Qed.

(** C4 (ambiguity and features of the axis oracle).  Take any bound batch
    and any sample of it that the caller's mask does not mark on entry.
    After [checkAmbiguous] the sample is still not marked, that is, the
    oracle reports it as not ambiguous; [evalFeatures] adds exactly one
    feature to its output, the unit vector along [A], so that on an output
    that is empty on entry the features are that single one.  The sample is
    marked ambiguous iff there are two or more features: neither holds. *)
Theorem AxisOracle_ambiguity_features (A : Axis) (this : AxisOracle A)
    (mask : list bool) (index : nat) :
  mask !! index = Some false ->
  let mask' := fst (checkAmbiguous mask this) in
  let this' := snd (checkAmbiguous mask this) in
  let features := fst (evalFeatures [] this') in
  mask' !! index = Some false
  /\ features = [mkFeature (unit_vector A)]
  /\ length features = 1%nat
  /\ (mask' !! index = Some true <-> (2 <= length features)%nat)
  /\ (forall out : list Feature,
        fst (evalFeatures out this') = out ++ features).
Proof.
  intros Hm. cbn zeta. rewrite checkAmbiguous_eq. cbn [fst snd].
  rewrite !evalFeatures_eq. cbn [fst app length]. rewrite Hm.
  repeat split; try done; try lia.
  intros out. by rewrite evalFeatures_eq.
Qed.

Lemma AxisOracle_ambiguity_features_witness :
  fst (checkAmbiguous [false; false] (@mkAxisOracle Axis1 sample_storage)) !! 1%nat
    = Some false
  /\ fst (evalFeatures [] (@mkAxisOracle Axis1 sample_storage))
     = [mkFeature (unit_vector Axis1)].
Proof.
  pose proof (AxisOracle_ambiguity_features Axis1 (mkAxisOracle sample_storage)
                [false; false] 1 eq_refl) as H.
  cbn zeta in H. exact (conj (proj1 H) (proj1 (proj2 H))).
Defined.

(** ** AxisOracleClause<A> *)

Lemma getOracle_eq (A : Axis) (this : AxisOracleClause A) (h : Heap) :
  getOracle this h
  = (Some (fresh (dom h)),
     <[fresh (dom h) := Obj_AxisOracle A (AxisOracle_new A)]> h).
Proof. reflexivity. Qed.

(** C8 (a clause manufactures a new oracle on every call).  The
    manufacturing operation of a clause is its virtual member function
    [getOracle], called through [OracleClause].  On an axis oracle clause
    every call, on whatever store, returns a pointer that is not null, to a
    location that held no object before the call and now holds a newly
    constructed [AxisOracle<A>] with no sample bound to it; the objects
    already on the store are untouched.  The instance a call returns did not
    exist before that call, so no call returns an instance of an earlier
    call: a call on any store where that instance lives returns another
    pointer, and two calls in a row return two distinct instances. *)
Theorem AxisOracleClause_getOracle_fresh (A : Axis)
    (this : AxisOracleClause A) (h : Heap) :
  exists l : loc,
    getOracle this h = (Some l, <[l := Obj_AxisOracle A (AxisOracle_new A)]> h)
    /\ h !! l = None
    /\ bound_batch (Obj_AxisOracle A (AxisOracle_new A)) = []
    /\ (forall l' : loc, l' <> l -> snd (getOracle this h) !! l' = h !! l')
    /\ (forall h2 : Heap, is_Some (h2 !! l) -> fst (getOracle this h2) <> Some l)
    /\ (exists l2 : loc,
          fst (getOracle this (snd (getOracle this h))) = Some l2 /\ l2 <> l).
Proof.
  exists (fresh (dom h)). rewrite !getOracle_eq. cbn [fst snd].
  assert (Hfresh : forall h' : Heap, h' !! fresh (dom h') = None).
  { intros h'. apply not_elem_of_dom, is_fresh. }
  repeat split.
  - apply Hfresh.
  - intros l' Hne. by rewrite lookup_insert_ne.
  - intros h2 [obj Hobj] [= Heq]. rewrite <- Heq, Hfresh in Hobj. done.
  - eexists. split; [reflexivity|].
    intros Heq.
    pose proof (Hfresh (<[fresh (dom h) := Obj_AxisOracle A (AxisOracle_new A)]> h)) as Hf.
    rewrite Heq, lookup_insert_eq in Hf. done.
Qed.

(** ** BRepCompare *)

Section BRepCompareFacts.

Context {T : Type} (eq : T -> T -> bool).
Implicit Types (a b : list T) (i : Z) (fuel : nat).

Lemma unsigned_incr_small (n i : Z) :
  0 <= i < n -> n < 2 ^ 32 -> unsigned_incr i = i + 1.
Proof. intros Hi Hn. unfold unsigned_incr. apply Z.mod_small. lia. Qed.

(** One turn of the loop. *)
Lemma require_each_step fuel i a b :
  require_each eq (S fuel) i a b
  = if i <? size a then
      x <- at_index a i ;;
      y <- at_index b i ;;
      REQUIRE (eq x y) ;;
      require_each eq fuel (unsigned_incr i) a b
    else Finished tt.
Proof. reflexivity. Qed.

(** If the loop runs to its end, every element from [i] on compared
    equal. *)
Lemma require_each_sound fuel : forall i a b,
  0 <= i -> size a < 2 ^ 32 ->
  require_each eq fuel i a b = Finished tt ->
  forall (j : nat) (x y : T),
    i <= Z.of_nat j -> a !! j = Some x -> b !! j = Some y -> eq x y = true.
Proof.
  induction fuel as [|fuel IH]; intros i a b Hi Hsz Hrun j x y Hj Hx Hy;
    [discriminate|].
  rewrite require_each_step in Hrun.
  destruct (Z.ltb_spec i (size a)) as [Hlt|Hge].
  - unfold at_index in Hrun.
    destruct (a !! Z.to_nat i) as [x0|] eqn:Hx0; [|discriminate].
    destruct (b !! Z.to_nat i) as [y0|] eqn:Hy0; [|discriminate].
    cbn in Hrun. destruct (eq x0 y0) eqn:Heq; [|discriminate]. cbn in Hrun.
    rewrite (unsigned_incr_small (size a)) in Hrun by lia.
    destruct (decide (Z.of_nat j = i)) as [<-|Hne].
    + rewrite Nat2Z.id in Hx0, Hy0. congruence.
    + apply (IH (i + 1) a b ltac:(lia) Hsz Hrun j x y); [lia|done|done].
  - apply lookup_lt_Some in Hx. unfold size in Hge. lia.
Qed.

(** With equal lengths, elements that compare equal from [i] on, and
    enough steps, the loop runs to its end. *)
Lemma require_each_complete fuel : forall i a b,
  0 <= i <= size a -> size a < 2 ^ 32 -> length a = length b ->
  size a - i < Z.of_nat fuel ->
  (forall (j : nat) (x y : T),
     i <= Z.of_nat j -> a !! j = Some x -> b !! j = Some y -> eq x y = true) ->
  require_each eq fuel i a b = Finished tt.
Proof.
  induction fuel as [|fuel IH]; intros i a b Hi Hsz Hlen Hfuel Hall; [lia|].
  - rewrite require_each_step.
    destruct (Z.ltb_spec i (size a)) as [Hlt|Hge]; [|done].
    pose proof (eq_refl : size a = Z.of_nat (length a)) as Hsize.
    destruct (lookup_lt_is_Some_2 a (Z.to_nat i)) as [x Hx]; [lia|].
    destruct (lookup_lt_is_Some_2 b (Z.to_nat i)) as [y Hy]; [lia|].
    unfold at_index. rewrite Hx, Hy. cbn.
    rewrite (Hall (Z.to_nat i) x y); [|lia|done|done]. cbn.
    rewrite (unsigned_incr_small (size a)) by lia.
    apply IH; [lia|done|done|lia|].
    intros j x' y' Hj. apply Hall. lia.
Qed.

(** The loop never indexes out of range once the lengths are equal. *)
Lemma require_each_in_range fuel : forall i a b,
  0 <= i -> size a < 2 ^ 32 -> length a = length b ->
  require_each eq fuel i a b <> OutOfRange.
Proof.
  induction fuel as [|fuel IH]; intros i a b Hi Hsz Hlen; [done|].
  rewrite require_each_step.
  destruct (Z.ltb_spec i (size a)) as [Hlt|Hge]; [|done].
  pose proof (eq_refl : size a = Z.of_nat (length a)) as Hsize.
  destruct (lookup_lt_is_Some_2 a (Z.to_nat i)) as [x Hx]; [lia|].
  destruct (lookup_lt_is_Some_2 b (Z.to_nat i)) as [y Hy]; [lia|].
  unfold at_index. rewrite Hx, Hy. cbn.
  destruct (eq x y); cbn; [|done].
  rewrite (unsigned_incr_small (size a)) by lia.
  apply IH; [lia|done|done].
Qed.

(** With enough steps the loop ends: it does not run out of fuel. *)
Lemma require_each_terminates fuel : forall i a b,
  0 <= i <= size a -> size a < 2 ^ 32 ->
  size a - i < Z.of_nat fuel ->
  require_each eq fuel i a b <> OutOfFuel.
Proof.
  induction fuel as [|fuel IH]; intros i a b Hi Hsz Hfuel; [lia|].
  - rewrite require_each_step.
    destruct (Z.ltb_spec i (size a)) as [Hlt|Hge]; [|done].
    unfold at_index.
    destruct (a !! Z.to_nat i) as [x|]; cbn; [|done].
    destruct (b !! Z.to_nat i) as [y|]; cbn; [|done].
    destruct (eq x y); cbn; [|done].
    rewrite (unsigned_incr_small (size a)) by lia.
    apply IH; lia.
Qed.

Lemma size_eqb_length a b : (size a =? size b) = true <-> length a = length b.
Proof. unfold size. rewrite Z.eqb_eq. lia. Qed.

End BRepCompareFacts.

Section BRepCompareTheorem.

Context {Vert Brane : Type}.
Variable vert_eq : Vert -> Vert -> bool.
Variable brane_eq : Brane -> Brane -> bool.
Implicit Types first second : BRep Vert Brane.

Let compare := BRepCompare vert_eq brane_eq.

Lemma BRepCompare_sound fuel first second :
  size (verts first) < 2 ^ 32 -> size (branes first) < 2 ^ 32 ->
  compare fuel first second = Finished tt ->
  agree vert_eq (verts first) (verts second)
  /\ agree brane_eq (branes first) (branes second).
Proof.
  intros Hv Hb. unfold compare, BRepCompare, agree.
  destruct (size (verts first) =? size (verts second)) eqn:Hlv; [|done].
  cbn. apply size_eqb_length in Hlv.
  destruct (require_each vert_eq fuel 0 (verts first) (verts second))
    as [[]| | |] eqn:Hrv; [|done..].
  cbn.
  destruct (size (branes first) =? size (branes second)) eqn:Hlb; [|done].
  cbn. apply size_eqb_length in Hlb. intros Hrb.
  repeat split; [done| |done|].
  - intros j x y. eapply require_each_sound; [| |exact Hrv|]; [done|done|lia].
  - intros j x y. eapply require_each_sound; [| |exact Hrb|]; [done|done|lia].
Qed.

Lemma BRepCompare_complete fuel first second :
  size (verts first) < 2 ^ 32 -> size (branes first) < 2 ^ 32 ->
  size (verts first) < Z.of_nat fuel -> size (branes first) < Z.of_nat fuel ->
  agree vert_eq (verts first) (verts second) ->
  agree brane_eq (branes first) (branes second) ->
  compare fuel first second = Finished tt.
Proof.
  intros Hv Hb Hfv Hfb [Hlv Hav] [Hlb Hab]. unfold compare, BRepCompare.
  rewrite (proj2 (size_eqb_length _ _) Hlv). cbn.
  rewrite (require_each_complete vert_eq fuel 0); cbn;
    [|unfold size; lia|done|done|lia|by intros j x y _; apply Hav].
  rewrite (proj2 (size_eqb_length _ _) Hlb). cbn.
  apply require_each_complete;
    [unfold size; lia|done|done|lia|by intros j x y _; apply Hab].
Qed.

Lemma BRepCompare_outcome fuel first second :
  size (verts first) < 2 ^ 32 -> size (branes first) < 2 ^ 32 ->
  size (verts first) < Z.of_nat fuel -> size (branes first) < Z.of_nat fuel ->
  compare fuel first second = Finished tt
  \/ compare fuel first second = RequireFailed.
Proof.
  intros Hv Hb Hfv Hfb. unfold compare, BRepCompare.
  destruct (size (verts first) =? size (verts second)) eqn:Hlv; [|by right].
  cbn. apply size_eqb_length in Hlv.
  pose proof (require_each_in_range vert_eq fuel 0 (verts first) (verts second)
                ltac:(lia) Hv Hlv) as Hrange.
  pose proof (require_each_terminates vert_eq fuel 0 (verts first) (verts second)
                ltac:(unfold size; lia) Hv ltac:(lia)) as Hterm.
  destruct (require_each vert_eq fuel 0 (verts first) (verts second))
    as [[]| | |]; [|by right|done|done].
  cbn.
  destruct (size (branes first) =? size (branes second)) eqn:Hlb; [|by right].
  cbn. apply size_eqb_length in Hlb.
  pose proof (require_each_in_range brane_eq fuel 0 (branes first) (branes second)
                ltac:(lia) Hb Hlb) as Hrange'.
  pose proof (require_each_terminates brane_eq fuel 0 (branes first) (branes second)
                ltac:(unfold size; lia) Hb ltac:(lia)) as Hterm'.
  destruct (require_each brane_eq fuel 0 (branes first) (branes second))
    as [[]| | |]; [by left|by right|done|done].
Qed.

End BRepCompareTheorem.

(** [BRepCompare] is exact ordered equality below 2^32 elements.  For two
    BReps whose sequences the 32-bit loop counter can index, the comparison
    succeeds if
    and only if the vertex sequences have equal length and compare equal
    with [==] at every index, and so do the brane sequences.  With enough
    steps to walk both sequences the run always ends, either in success or
    in a failed [REQUIRE], and it fails exactly when the sequences do not
    agree in this sense: nothing is reordered, no tolerance is applied, and
    no element is skipped. *)
Theorem BRepCompare_exact {Vert Brane : Type}
    (vert_eq : Vert -> Vert -> bool) (brane_eq : Brane -> Brane -> bool)
    (first second : BRep Vert Brane) :
  size (verts first) < 2 ^ 32 -> size (branes first) < 2 ^ 32 ->
  (BRepCompare_succeeds vert_eq brane_eq first second
   <-> agree vert_eq (verts first) (verts second)
       /\ agree brane_eq (branes first) (branes second))
  /\ (forall fuel : nat,
        size (verts first) < Z.of_nat fuel ->
        size (branes first) < Z.of_nat fuel ->
        (BRepCompare vert_eq brane_eq fuel first second = Finished tt
         <-> agree vert_eq (verts first) (verts second)
             /\ agree brane_eq (branes first) (branes second))
        /\ (BRepCompare vert_eq brane_eq fuel first second = RequireFailed
            <-> ~ (agree vert_eq (verts first) (verts second)
                   /\ agree brane_eq (branes first) (branes second)))).
Proof.
  intros Hv Hb.
  assert (Hfuel : forall fuel : nat,
             size (verts first) < Z.of_nat fuel ->
             size (branes first) < Z.of_nat fuel ->
             BRepCompare vert_eq brane_eq fuel first second = Finished tt
             <-> agree vert_eq (verts first) (verts second)
                 /\ agree brane_eq (branes first) (branes second)).
  { intros fuel Hfv Hfb. split.
    - by apply BRepCompare_sound.
    - intros [Ha Hc]. by apply BRepCompare_complete. }
  split.
  - split.
    + intros [fuel Hrun]. by apply (BRepCompare_sound _ _ fuel).
    + intros Hag.
      exists (S (Nat.max (length (verts first)) (length (branes first)))).
      apply Hfuel; [unfold size; lia..|done].
  - intros fuel Hfv Hfb. split; [by apply Hfuel|].
    destruct (BRepCompare_outcome vert_eq brane_eq fuel first second Hv Hb Hfv Hfb)
      as [Hok|Hfail].
    + split; [congruence|]. intros Hn. destruct Hn.
      by apply (Hfuel fuel Hfv Hfb).
    + split; [|done]. intros _ Hag.
      apply (Hfuel fuel Hfv Hfb) in Hag. congruence.
Qed.

Lemma BRepCompare_exact_witness :
  BRepCompare_succeeds Vector3f_eqb Brane3_eqb triangle triangle_reordered
  <-> agree Vector3f_eqb (verts triangle) (verts triangle_reordered)
      /\ agree Brane3_eqb (branes triangle) (branes triangle_reordered).
Proof.
  exact (proj1 (BRepCompare_exact Vector3f_eqb Brane3_eqb
                  triangle triangle_reordered eq_refl eq_refl)).
Defined.

Example BRepCompare_same : BRepCompare Vector3f_eqb Brane3_eqb 4 triangle triangle = Finished tt.
Proof. reflexivity. Qed.

(** The same surface with its vertices in another order does not pass. *)
Example BRepCompare_reordered :
  BRepCompare Vector3f_eqb Brane3_eqb 4 triangle triangle_reordered = RequireFailed.
Proof. reflexivity. Qed.

(** A prefix does not pass. *)
Example BRepCompare_prefix :
  BRepCompare Vector3f_eqb Brane3_eqb 4
    (mkBRep (take 2 (verts triangle)) []) triangle = RequireFailed.
Proof. reflexivity. Qed.

(** [==] is the comparison of the element type.  On floats it is not
    identity: a vertex with a NaN coordinate differs from itself, and the
    two zeros are equal. *)
Example BRepCompare_nan :
  let b : BRep3 := mkBRep [mkVector3f S754_nan Float32.zero Float32.zero] [] in
  BRepCompare Vector3f_eqb Brane3_eqb 2 b b = RequireFailed.
Proof. reflexivity. Qed.

Example BRepCompare_signed_zero :
  BRepCompare Vector3f_eqb Brane3_eqb 2
    (mkBRep [mkVector3f (S754_zero true) Float32.zero Float32.zero] [])
    (mkBRep [mkVector3f (S754_zero false) Float32.zero Float32.zero] [])
  = Finished tt.
Proof. reflexivity. Qed.

(** Where [==] decides identity, as it does on the index vectors of the
    branes, agreement is equality of the sequences. *)
Lemma agree_eq {T : Type} (eq : T -> T -> bool) (a b : list T) :
  (forall x y : T, eq x y = true <-> x = y) ->
  agree eq a b <-> a = b.
Proof.
  intros Heq. unfold agree. split.
  - intros [Hlen Hall]. apply list_eq_same_length with (length a); [done|done|].
    intros i x y _ Hx Hy. apply Heq. by apply (Hall i).
  - intros <-. split; [done|]. intros i x y Hx Hy. apply Heq. congruence.
Qed.

Lemma Brane3_eqb_eq (a b : Brane3) : Brane3_eqb a b = true <-> a = b.
Proof.
  unfold Brane3_eqb. rewrite !andb_true_iff, !Z.eqb_eq.
  destruct a, b; cbn. split; [intros [[-> ->] ->]; done | intros [= -> -> ->]; done].
Qed.

(** * Properties of the modelled components *)

(** ** An axis oracle answers as the native axis does *)

Section AxisOracleAsAxis.

Context (A : Axis).
Implicit Types (o : AxisOracle A) (pts : list Vector3f).

Lemma call_evalInterval_axis lo hi out o :
  Dispatch.call_evalInterval out (Dispatch.bind_region lo hi (Obj_AxisOracle A o))
  = (Interval.mkI (coeff lo A) (coeff hi A),
     Obj_AxisOracle A (mkAxisOracle (set_region lo hi (base o)))).
Proof. reflexivity. Qed.

Lemma call_evalPoint_axis o index p out :
  points (base o) !! index = Some p ->
  Dispatch.call_evalPoint out index (Obj_AxisOracle A o)
  = Some (coeff p A, Obj_AxisOracle A o).
Proof.
  intros Hp. unfold Dispatch.call_evalPoint.
  by rewrite (evalPoint_Some o index p out Hp).
Qed.

Lemma evalArray_axis o : forall (n i : nat),
  (i + n)%nat = length (points (base o)) ->
  Dispatch.evalArray n i (Obj_AxisOracle A o)
  = Some (map (fun p => coeff p A) (drop i (points (base o))), Obj_AxisOracle A o).
Proof.
  induction n as [|n IH]; intros i Hlen.
  - rewrite drop_ge by lia. reflexivity.
  - destruct (lookup_lt_is_Some_2 (points (base o)) i) as [p Hp]; [lia|].
    cbn [Dispatch.evalArray]. rewrite (call_evalPoint_axis o i p _ Hp). cbn.
    rewrite IH by lia. cbn.
    by rewrite (drop_S _ _ _ Hp).
Qed.

Lemma evalDerivArray_axis o : forall (n i : nat),
  (i + n)%nat = length (points (base o)) ->
  Dispatch.evalDerivArray n i (Obj_AxisOracle A o)
  = Some (map (fun p => (coeff p A, unit_vector A)) (drop i (points (base o))),
          Obj_AxisOracle A o).
Proof.
  induction n as [|n IH]; intros i Hlen.
  - rewrite drop_ge by lia. reflexivity.
  - destruct (lookup_lt_is_Some_2 (points (base o)) i) as [p Hp]; [lia|].
    cbn [Dispatch.evalDerivArray].
    rewrite (call_evalPoint_axis o i p _ Hp). cbn [mbind option_bind].
    unfold Dispatch.call_evalDerivs. rewrite evalDerivs_eq.
    rewrite IH by lia. cbn.
    by rewrite (drop_S _ _ _ Hp).
Qed.

Lemma zip_repeat_false (vs : list float) (n : nat) :
  n = length vs -> zip vs (repeat false n) = map (fun v => (v, false)) vs.
Proof.
  intros ->. induction vs as [|v vs IH]; [done|]. cbn. by rewrite IH.
Qed.

End AxisOracleAsAxis.

(** ** Passes over counterpart evaluators end alike *)

Lemma sim_result_Some {R : Type} (r : R) (d d' : Deck) :
  sim d d' -> sim_result (Some (r, d)) (Some (r, d')).
Proof. by split. Qed.

Lemma sim_result_bind {R S : Type} (x y : option (R * Deck))
    (f g : R * Deck -> option (S * Deck)) :
  sim_result x y ->
  (forall r d d', sim d d' -> sim_result (f (r, d)) (g (r, d'))) ->
  sim_result (x ≫= f) (y ≫= g).
Proof.
  intros Hxy Hfg.
  destruct x as [[r d]|], y as [[r' d']|]; cbn in *; try done.
  destruct Hxy as [<- Hsim]. by apply Hfg.
Qed.

Section WalkSim.

Context {R : Type}.
Variable on_const : float -> R.
Variable on_var : Axis -> R.
Variable on_unary : UnaryOp -> R -> R.
Variable on_binary : BinaryOp -> R -> R -> R.
Variable on_oracle : Object -> option (R * Object).

(** The oracle handler of the mode answers, on an axis oracle in any
    state, what the mode gives for the native axis. *)
Hypothesis on_axis : forall (A : Axis) (o : AxisOracle A),
  exists o' : AxisOracle A,
    on_oracle (Obj_AxisOracle A o) = Some (on_var A, Obj_AxisOracle A o').

Let pass := walk on_const on_var on_unary on_binary on_oracle.

Lemma walk_sim (d d' : Deck) : sim d d' -> sim_result (pass d) (pass d').
Proof.
  induction 1 as [c|A|A o|op a a' Ha IHa|op a a' b b' Ha IHa Hb IHb|obj].
  - apply sim_result_Some. constructor.
  - apply sim_result_Some. constructor.
  - destruct (on_axis A o) as [o' Ho]. unfold pass. cbn. rewrite Ho. cbn.
    split; [done|constructor].
  - unfold pass. cbn. apply sim_result_bind; [exact IHa|].
    intros r e e' He. apply sim_result_Some. by constructor.
  - unfold pass. cbn. apply sim_result_bind; [exact IHa|].
    intros ra e e' He. apply sim_result_bind; [exact IHb|].
    intros rb f f' Hf. apply sim_result_Some. by constructor.
  - unfold pass. cbn. destruct (on_oracle obj) as [[r obj']|]; cbn; [|done].
    split; [done|constructor].
Qed.

End WalkSim.

Section EvaluatorSim.

Variable rules : PointRules.

Lemma eval_interval_sim lo hi (d d' : Deck) :
  sim d d' -> sim_result (eval_interval lo hi d) (eval_interval lo hi d').
Proof.
  apply walk_sim. intros A o. eexists. by rewrite call_evalInterval_axis.
Qed.

Lemma eval_values_sim pts (d d' : Deck) :
  sim d d' -> sim_result (eval_values pts d) (eval_values pts d').
Proof.
  apply walk_sim. intros A o. eexists. cbn [Dispatch.bind_points].
  rewrite evalArray_axis by (cbn; lia). reflexivity.
Qed.

Lemma eval_derivs_sim pts (d d' : Deck) :
  sim d d' -> sim_result (eval_derivs rules pts d) (eval_derivs rules pts d').
Proof.
  apply walk_sim. intros A o. eexists. cbn [Dispatch.bind_points].
  rewrite evalDerivArray_axis by (cbn; lia). reflexivity.
Qed.

Lemma eval_ambiguous_sim pts (d d' : Deck) :
  sim d d' ->
  sim_result (eval_ambiguous rules pts d) (eval_ambiguous rules pts d').
Proof.
  apply walk_sim. intros A o. eexists. cbn [Dispatch.bind_points].
  rewrite evalArray_axis by (cbn; lia). cbn [mbind option_bind].
  unfold Dispatch.call_checkAmbiguous. rewrite checkAmbiguous_eq.
  rewrite zip_repeat_false by (by rewrite length_map).
  cbn. by rewrite map_map.
Qed.

Lemma eval_features_sim p (d d' : Deck) :
  sim d d' -> sim_result (eval_features rules p d) (eval_features rules p d').
Proof.
  apply walk_sim. intros A o. eexists. cbn [Dispatch.bind_points].
  rewrite (call_evalPoint_axis A _ 0 p) by reflexivity. cbn [mbind option_bind].
  unfold Dispatch.call_evalFeatures. rewrite evalFeatures_eq. reflexivity.
Qed.

End EvaluatorSim.

(** ** The mesher on counterpart evaluators *)

Section MesherSim.

Variable rules : PointRules.
Variable policy : Policy.

Lemma run_sim {R : Type} (m : Prog R) : forall d d' : Deck,
  sim d d' -> sim_result (run rules m d) (run rules m d').
Proof.
  induction m as [r| |lo hi k IH|pts k IH|pts k IH|pts k IH|p k IH];
    intros d d' Hsim; cbn [run].
  - by apply sim_result_Some.
  - done.
  - apply sim_result_bind; [by apply eval_interval_sim|].
    intros i e e' He. by apply IH.
  - apply sim_result_bind; [by apply eval_values_sim|].
    intros vs e e' He. by apply IH.
  - apply sim_result_bind; [by apply eval_derivs_sim|].
    intros rs e e' He. by apply IH.
  - apply sim_result_bind; [by apply eval_ambiguous_sim|].
    intros rs e e' He. by apply IH.
  - apply sim_result_bind; [by apply eval_features_sim|].
    intros r e e' He. by apply IH.
Qed.

Lemma mesh_cells_sim
    (visit : Region3 -> BRep3 -> Deck -> option (BRep3 * Deck)) :
  (forall r acc d d', sim d d' -> sim_result (visit r acc d) (visit r acc d')) ->
  forall (cells : list Region3) (acc : BRep3) (d d' : Deck),
    sim d d' ->
    sim_result (mesh_cells visit cells acc d) (mesh_cells visit cells acc d').
Proof.
  intros Hvisit cells.
  induction cells as [|r cells IH]; intros acc d d' Hsim; cbn [mesh_cells].
  - by apply sim_result_Some.
  - apply sim_result_bind; [by apply Hvisit|].
    intros acc' e e' He. by apply IH.
Qed.

Lemma mesh_cell_sim (depth : nat) : forall (r : Region3) (acc : BRep3) (d d' : Deck),
  sim d d' ->
  sim_result (mesh_cell rules policy depth r acc d)
             (mesh_cell rules policy depth r acc d').
Proof.
  induction depth as [|depth IH]; intros r acc d d' Hsim; cbn [mesh_cell].
  - apply sim_result_bind; [by apply eval_interval_sim|].
    intros i e e' He.
    destruct (does_not_straddle_zero i); [by apply sim_result_Some|].
    by apply run_sim.
  - apply sim_result_bind; [by apply eval_interval_sim|].
    intros i e e' He.
    destruct (does_not_straddle_zero i); [by apply sim_result_Some|].
    destruct (small_enough policy r); [by apply run_sim|].
    by apply mesh_cells_sim.
Qed.


End MesherSim.

(** ** The evaluator made for a tree *)

Lemma make_oracle_axis (A : Axis) (c : AxisOracleClause A) :
  make_oracle (Clause_Axis A c) = Some (Obj_AxisOracle A (AxisOracle_new A)).
Proof.
  unfold make_oracle, Dispatch.call_getOracle. rewrite getOracle_eq. cbn.
  apply lookup_insert_eq.
Qed.

Lemma make_deck_total (t : Tree) : is_Some (make_deck t).
Proof.
  induction t as [c|A|op a [a' Ha]|op a [a' Ha] b [b' Hb]|[A c]];
    cbn [make_deck].
  - done.
  - done.
  - rewrite Ha. done.
  - rewrite Ha, Hb. done.
  - rewrite make_oracle_axis. done.
Qed.

Lemma sim_refl (d : Deck) : sim d d.
Proof. induction d; by constructor. Qed.

(** The evaluator of the converted tree is the counterpart of the
    evaluator of the tree. *)
Lemma make_deck_convert (t : Tree) : forall d : Deck,
  make_deck t = Some d ->
  exists d' : Deck, make_deck (convertToOracleAxes t) = Some d' /\ sim d d'.
Proof.
  unfold convertToOracleAxes.
  induction t as [c|A|op a IHa|op a IHa b IHb|c]; intros d Hd; cbn in Hd.
  - injection Hd as <-. eexists. split; [reflexivity|constructor].
  - injection Hd as <-.
    destruct A; cbn [remap]; unfold Tree_of_clause; cbn [make_deck];
      rewrite make_oracle_axis; eexists; (split; [reflexivity|constructor]).
  - destruct (make_deck a) as [a'|]; [|done]. injection Hd as <-.
    destruct (IHa a' eq_refl) as (a'' & Ha & Hsim).
    cbn. rewrite Ha. eexists. split; [reflexivity|by constructor].
  - destruct (make_deck a) as [a'|]; [|done].
    destruct (make_deck b) as [b'|]; [|done]. injection Hd as <-.
    destruct (IHa a' eq_refl) as (a'' & Ha & Hsima).
    destruct (IHb b' eq_refl) as (b'' & Hb & Hsimb).
    cbn. rewrite Ha, Hb. eexists. split; [reflexivity|by constructor].
  - cbn. rewrite Hd. eexists. split; [reflexivity|apply sim_refl].
Qed.

(** Oracle transparency, for every tree and every region: rendering the
    tree and rendering the tree with its axes replaced by axis oracles give
    the same outcome, whatever the rules of the native operators and the
    policy of the mesher. *)
Lemma render_convertToOracleAxes (rules : PointRules) (policy : Policy)
    (t : Tree) (r : Region3) :
  render rules policy (convertToOracleAxes t) r = render rules policy t r.
Proof.
  unfold render.
  destruct (make_deck_total t) as [d Hd].
  destruct (make_deck_convert t d Hd) as (d' & Hd' & Hsim).
  rewrite Hd, Hd'. cbn.
  pose proof (mesh_cell_sim rules policy (max_depth policy) r empty_BRep d d' Hsim)
    as Hres.
  destruct (mesh_cell rules policy (max_depth policy) r empty_BRep d) as [[m e]|],
           (mesh_cell rules policy (max_depth policy) r empty_BRep d') as [[m' e']|];
    cbn in *; try done.
  by destruct Hres as [<- _].
Qed.

(** ** The scenarios of the tests *)

(** The conversion leaves no native axis in the two shapes. *)
Lemma convertToOracleAxes_no_native_axis (t : Tree) :
  native_axes (convertToOracleAxes t) = [].
Proof.
  unfold convertToOracleAxes.
  induction t as [c|A|op a IHa|op a IHa b IHb|c]; cbn.
  - done.
  - by destruct A.
  - done.
  - by rewrite IHa, IHb.
  - done.
Qed.

(** With the small mesher of the examples the sphere of radius 0.5 gives
    a mesh that is not empty over [-1,1]^3, and the same mesh with oracles
    for axes. *)
Example render_sphere_sample :
  let s := sphere (Float32.of_dyadic 1 (-1)) in
  (fun m => (length (verts m), length (branes m)))
    <$> render sample_rules (sample_policy 1) s region_A
  = Some (4%nat, 2%nat)
  /\ render sample_rules (sample_policy 1) (convertToOracleAxes s) region_A
     = render sample_rules (sample_policy 1) s region_A.
Proof. split; vm_compute; reflexivity. Qed.

(** The lower corner of [-2.5,2.5]^3 is a corner of the field of the
    cube, where the three pairs of planes tie: the small mesher finds it
    ambiguous and meshes it from its features, natively and with oracles. *)
Example render_cube_sample :
  (fun m => (length (verts m), length (branes m)))
    <$> render sample_rules (sample_policy 2) cube region_B
  = Some (107%nat, 38%nat)
  /\ render sample_rules (sample_policy 2) (convertToOracleAxes cube) region_B
     = render sample_rules (sample_policy 2) cube region_B
  /\ (d ← make_deck (convertToOracleAxes cube);
      fst <$> eval_ambiguous sample_rules [r_lower region_B] d)
     = Some [(Float32.one, true)].
Proof. split; [|split]; vm_compute; reflexivity. Qed.

(** C1 (oracle transparency, scenario A).  For the sphere of radius 0.5
    centred at the origin and the region [-1,1]^3, rendering the tree and
    rendering the tree [convertToOracleAxes] makes of it, in which the
    three axis oracles stand for every native axis, end alike: either both
    fail or both give a mesh, and then the two meshes have the same vertex
    sequence and the same brane sequence.  This holds whatever rules the
    native operators follow and whatever the mesher's policy is. *)
Theorem render_sphere_transparent (rules : PointRules) (policy : Policy) :
  let s := sphere (Float32.of_dyadic 1 (-1)) in
  let sOracle := convertToOracleAxes s in
  let mesh := render rules policy sOracle region_A in
  let comparisonMesh := render rules policy s region_A in
  native_axes s = [Axis0; Axis0; Axis1; Axis1; Axis2; Axis2]
  /\ native_axes sOracle = []
  /\ mesh = comparisonMesh
  /\ (forall m c : BRep3,
        mesh = Some m -> comparisonMesh = Some c ->
        verts m = verts c /\ branes m = branes c).
Proof.
  cbn zeta. split; [reflexivity|]. split; [reflexivity|].
  rewrite render_convertToOracleAxes. split; [reflexivity|].
  intros m c -> [= ->]. done.
Qed.

(** C2 (oracle transparency, scenario B).  For the cube written as the
    maximum of six half-spaces at +-1.5 and the region [-2.5,2.5]^3,
    rendering the tree and rendering it with the three axes replaced by
    axis oracles end alike, with the same vertex and brane sequences.  The
    mesher may query ambiguity and features wherever it wants, the edges
    and corners of the cube included. *)
Theorem render_cube_transparent (rules : PointRules) (policy : Policy) :
  let cubeOracle := convertToOracleAxes cube in
  let mesh := render rules policy cubeOracle region_B in
  let comparisonMesh := render rules policy cube region_B in
  native_axes cube = [Axis0; Axis0; Axis1; Axis1; Axis2; Axis2]
  /\ native_axes cubeOracle = []
  /\ mesh = comparisonMesh
  /\ (forall m c : BRep3,
        mesh = Some m -> comparisonMesh = Some c ->
        verts m = verts c /\ branes m = branes c).
Proof.
  cbn zeta. split; [reflexivity|]. split; [reflexivity|].
  rewrite render_convertToOracleAxes. split; [reflexivity|].
  intros m c -> [= ->]. done.
Qed.






(** * Further properties of the embedded code *)

(** ** The comparisons of binary32 values *)

Section FloatOrderFacts.

Import FloatOrder.
Implicit Types a b c : float.

Lemma lex_lt_irrefl (k : Z * Z * Z) : ~ lex_lt k k.
Proof. destruct k as [[k1 k2] k3]. unfold lex_lt. lia. Qed.

Lemma lex_lt_trans (k l m : Z * Z * Z) : lex_lt k l -> lex_lt l m -> lex_lt k m.
Proof.
  destruct k as [[k1 k2] k3], l as [[l1 l2] l3], m as [[m1 m2] m3].
  unfold lex_lt. lia.
Qed.

Lemma lex_trichotomy (k l : Z * Z * Z) : lex_lt k l \/ k = l \/ lex_lt l k.
Proof.
  destruct k as [[k1 k2] k3], l as [[l1 l2] l3]. unfold lex_lt.
  destruct (Z.lt_total k1 l1) as [?|[->|?]]; [lia| |lia].
  destruct (Z.lt_total k2 l2) as [?|[->|?]]; [lia| |lia].
  destruct (Z.lt_total k3 l3) as [?|[->|?]]; [lia| |lia].
  right. by left.
Qed.

(** The comparison of two values that are not NaN is the lexicographic
    comparison of their keys. *)
Lemma SFcompare_key a b :
  is_nan a = false -> is_nan b = false ->
  match SFcompare a b with
  | Some Lt => lex_lt (key a) (key b)
  | Some Eq => key a = key b
  | Some Gt => lex_lt (key b) (key a)
  | None => False
  end.
Proof.
  destruct a as [sa|sa| |sa ma ea], b as [sb|sb| |sb mb eb]; try discriminate;
    intros _ _; cbn.
  all: try (destruct sa; cbn; try reflexivity; lia).
  all: try (destruct sb; cbn; try reflexivity; lia).
  all: try (destruct sa, sb; cbn; try reflexivity; lia).
  all: change (Pos.compare_cont Eq ma mb) with (Pos.compare ma mb).
  all: destruct sa, sb; cbn; try lia.
  all: destruct (Z.compare_spec ea eb) as [->|?|?]; cbn; try lia.
  all: destruct (Pos.compare_spec ma mb) as [->|?|?]; cbn; try reflexivity; lia.
Qed.

Lemma SFcompare_nan a b :
  is_nan a = true \/ is_nan b = true -> SFcompare a b = None.
Proof. destruct a, b; cbn; intros [?|?]; done. Qed.

Lemma ltb_key a b :
  is_nan a = false -> is_nan b = false ->
  Float32.ltb a b = true <-> lex_lt (key a) (key b).
Proof.
  intros Ha Hb. pose proof (SFcompare_key a b Ha Hb) as H.
  unfold Float32.ltb, SFltb. destruct (SFcompare a b) as [[| |]|]; try done.
  - split; [done|]. rewrite H. intros []%lex_lt_irrefl.
  - split; [done|]. intros H'. destruct (lex_lt_irrefl (key a)).
    by apply lex_lt_trans with (key b).
Qed.

Lemma eqb_key a b :
  is_nan a = false -> is_nan b = false ->
  Float32.eqb a b = true <-> key a = key b.
Proof.
  intros Ha Hb. pose proof (SFcompare_key a b Ha Hb) as H.
  unfold Float32.eqb, SFeqb. destruct (SFcompare a b) as [[| |]|]; try done.
  - split; [done|]. intros H'. rewrite H' in H. by destruct (lex_lt_irrefl (key b)).
  - split; [done|]. intros H'. rewrite H' in H. by destruct (lex_lt_irrefl (key b)).
Qed.

Lemma leb_ltb_eqb a b : Float32.leb a b = Float32.ltb a b || Float32.eqb a b.
Proof.
  unfold Float32.leb, Float32.ltb, Float32.eqb, SFleb, SFltb, SFeqb.
  by destruct (SFcompare a b) as [[| |]|].
Qed.

Lemma ltb_nan a b : is_nan a = true \/ is_nan b = true -> Float32.ltb a b = false.
Proof. intros H. unfold Float32.ltb, SFltb. by rewrite (SFcompare_nan a b H). Qed.

Lemma eqb_nan a b : is_nan a = true \/ is_nan b = true -> Float32.eqb a b = false.
Proof. intros H. unfold Float32.eqb, SFeqb. by rewrite (SFcompare_nan a b H). Qed.

(** [==] holds between two values exactly when the first is not NaN and
    the two are the same value up to the sign of a zero. *)
Lemma eqb_canon a b :
  Float32.eqb a b = true <-> is_nan a = false /\ canon a = canon b.
Proof.
  split.
  - intros Heq.
    destruct (is_nan a) eqn:Ha; [by rewrite eqb_nan in Heq; [|left]|].
    destruct (is_nan b) eqn:Hb; [by rewrite eqb_nan in Heq; [|right]|].
    split; [done|]. apply (eqb_key a b Ha Hb) in Heq.
    destruct a as [sa|sa| |sa ma ea], b as [sb|sb| |sb mb eb]; try done;
      cbn in Heq; repeat match goal with s : bool |- _ => destruct s end;
      cbn in Heq; try done; injection Heq; intros;
      assert (ea = eb) as -> by lia; by simplify_eq.
  - intros [Ha Hc].
    assert (Hb : is_nan b = false).
    { destruct a, b; try done; cbn in Hc; congruence. }
    apply (eqb_key a b Ha Hb).
    destruct a, b; try done; cbn in Hc; congruence.
Qed.

Lemma eqb_refl_iff a : Float32.eqb a a = true <-> is_nan a = false.
Proof. rewrite eqb_canon. split; [by intros []|done]. Qed.

Lemma eqb_sym a b : Float32.eqb a b = Float32.eqb b a.
Proof.
  destruct (Float32.eqb a b) eqn:Hab, (Float32.eqb b a) eqn:Hba; try done.
  - apply eqb_canon in Hab as [Ha Hc].
    assert (Float32.eqb b a = true); [|congruence].
    apply eqb_canon. split; [|done]. destruct a, b; try done; cbn in Hc; congruence.
  - apply eqb_canon in Hba as [Hb Hc].
    assert (Float32.eqb a b = true); [|congruence].
    apply eqb_canon. split; [|done]. destruct a, b; try done; cbn in Hc; congruence.
Qed.

Lemma eqb_trans a b c :
  Float32.eqb a b = true -> Float32.eqb b c = true -> Float32.eqb a c = true.
Proof. rewrite !eqb_canon. intros [Ha Hab] [Hb Hbc]. split; congruence. Qed.

Lemma leb_refl a : is_nan a = false -> Float32.leb a a = true.
Proof.
  intros Ha. rewrite leb_ltb_eqb. apply orb_true_iff. right.
  by apply eqb_refl_iff.
Qed.

Lemma leb_not_nan a b :
  Float32.leb a b = true -> is_nan a = false /\ is_nan b = false.
Proof.
  intros H. unfold Float32.leb, SFleb in H.
  destruct (is_nan a) eqn:Ha; [by rewrite SFcompare_nan in H; [|left]|].
  destruct (is_nan b) eqn:Hb; [by rewrite SFcompare_nan in H; [|right]|].
  done.
Qed.

End FloatOrderFacts.

(** ** More on BRepCompare *)

Lemma Vector3f_has_nan_false (v : Vector3f) :
  Vector3f_has_nan v = false
  <-> FloatOrder.is_nan (vx v) = false /\ FloatOrder.is_nan (vy v) = false
      /\ FloatOrder.is_nan (vz v) = false.
Proof.
  unfold Vector3f_has_nan. cbn. rewrite !orb_false_iff. tauto.
Qed.

(** [==] on two vertices: the first has no NaN coordinate, and the two are
    the same up to the signs of zero coordinates. *)
Lemma Vector3f_eqb_canon (v w : Vector3f) :
  Vector3f_eqb v w = true
  <-> Vector3f_has_nan v = false /\ Vector3f_canon v = Vector3f_canon w.
Proof.
  rewrite Vector3f_has_nan_false. unfold Vector3f_eqb, Vector3f_canon. cbn.
  rewrite !andb_true_iff, !eqb_canon. split.
  - intros ([Hx Hx'] & [Hy Hy'] & [Hz Hz'] & _). by rewrite Hx', Hy', Hz'.
  - intros ((Hx & Hy & Hz) & [= Hx' Hy' Hz']). done.
Qed.

Lemma agree_Forall2 {T : Type} (eq : T -> T -> bool) (a b : list T) :
  agree eq a b <-> Forall2 (fun x y => eq x y = true) a b.
Proof. unfold agree. by rewrite Forall2_same_length_lookup. Qed.

Lemma Forall2_canon {T : Type} (P : T -> Prop) (f : T -> T) (a b : list T) :
  Forall2 (fun x y => P x /\ f x = f y) a b
  <-> Forall P a /\ f <$> a = f <$> b.
Proof.
  split.
  - induction 1 as [|x y a b [HP Hf] _ [IHP IHf]]; [done|].
    split; [by constructor|]. cbn. by rewrite Hf, IHf.
  - revert b. induction a as [|x a IH]; intros [|y b] [HP Hf]; try done.
    apply Forall_cons in HP as [HPx HPa]. injection Hf as Hxy Hab.
    constructor; [done|]. by apply IH.
Qed.

Section BRepCompareMore.

Context {Vert Brane : Type}.
Variable vert_eq : Vert -> Vert -> bool.
Variable brane_eq : Brane -> Brane -> bool.
Implicit Types first second : BRep Vert Brane.

(** Success is agreement of both sequences, for sequences the counter can
    index. *)
Lemma BRepCompare_succeeds_agree first second :
  size (verts first) < 2 ^ 32 -> size (branes first) < 2 ^ 32 ->
  BRepCompare_succeeds vert_eq brane_eq first second
  <-> agree vert_eq (verts first) (verts second)
      /\ agree brane_eq (branes first) (branes second).
Proof.
  intros Hv Hb. split.
  - intros [fuel Hrun]. by apply (BRepCompare_sound _ _ fuel).
  - intros [Hav Hab].
    exists (S (Nat.max (length (verts first)) (length (branes first)))).
    apply BRepCompare_complete; [done|done|unfold size; lia..|done|done].
Qed.

(** The loop reads both sequences in range, whatever the counter does. *)
Lemma require_each_reads_in_range {T : Type} (eq : T -> T -> bool) (fuel : nat) :
  forall (i : Z) (a b : list T),
    0 <= i -> length a = length b ->
    require_each eq fuel i a b <> OutOfRange.
Proof.
  induction fuel as [|fuel IH]; intros i a b Hi Hlen; [done|].
  rewrite require_each_step.
  destruct (Z.ltb_spec i (size a)) as [Hlt|Hge]; [|done].
  pose proof (eq_refl : size a = Z.of_nat (length a)) as Hsize.
  destruct (lookup_lt_is_Some_2 a (Z.to_nat i)) as [x Hx]; [lia|].
  destruct (lookup_lt_is_Some_2 b (Z.to_nat i)) as [y Hy]; [lia|].
  unfold at_index. rewrite Hx, Hy. cbn.
  destruct (eq x y); cbn; [|done].
  apply IH; [|done]. unfold unsigned_incr.
  apply Z.mod_pos_bound. lia.
Qed.

(** Past the range of the counter the loop does not end: on sequences of
    2^32 elements or more that agree, the counter wraps around before it
    reaches the length. *)
Lemma require_each_wraps {T : Type} (eq : T -> T -> bool) (fuel : nat) :
  forall (i : Z) (a b : list T),
    0 <= i < 2 ^ 32 -> 2 ^ 32 <= size a -> agree eq a b ->
    require_each eq fuel i a b = OutOfFuel.
Proof.
  induction fuel as [|fuel IH]; intros i a b Hi Hsz [Hlen Hall]; [done|].
  rewrite require_each_step.
  destruct (Z.ltb_spec i (size a)) as [Hlt|Hge]; [|lia].
  pose proof (eq_refl : size a = Z.of_nat (length a)) as Hsize.
  destruct (lookup_lt_is_Some_2 a (Z.to_nat i)) as [x Hx]; [lia|].
  destruct (lookup_lt_is_Some_2 b (Z.to_nat i)) as [y Hy]; [lia|].
  unfold at_index. rewrite Hx, Hy. cbn.
  rewrite (Hall _ _ _ Hx Hy). cbn.
  apply IH; [|done|done]. unfold unsigned_incr.
  apply Z.mod_pos_bound. lia.
Qed.

(** On sequences that agree the loop never fails a [REQUIRE]. *)
Lemma require_each_agree_outcome {T : Type} (eq : T -> T -> bool) (fuel : nat) :
  forall (i : Z) (a b : list T),
    0 <= i -> agree eq a b ->
    require_each eq fuel i a b = Finished tt
    \/ require_each eq fuel i a b = OutOfFuel.
Proof.
  induction fuel as [|fuel IH]; intros i a b Hi [Hlen Hall]; [by right|].
  rewrite require_each_step.
  destruct (Z.ltb_spec i (size a)) as [Hlt|Hge]; [|by left].
  pose proof (eq_refl : size a = Z.of_nat (length a)) as Hsize.
  destruct (lookup_lt_is_Some_2 a (Z.to_nat i)) as [x Hx]; [lia|].
  destruct (lookup_lt_is_Some_2 b (Z.to_nat i)) as [y Hy]; [lia|].
  unfold at_index. rewrite Hx, Hy. cbn.
  rewrite (Hall _ _ _ Hx Hy). cbn.
  apply IH; [|done]. unfold unsigned_incr.
  apply Z.mod_pos_bound. lia.
Qed.

(** Past the range of the counter the loop never runs to its end, whatever
    the elements are: the counter stays below 2^32 and so below the size. *)
Lemma require_each_too_long {T : Type} (eq : T -> T -> bool) (fuel : nat) :
  forall (i : Z) (a b : list T),
    0 <= i < 2 ^ 32 -> 2 ^ 32 <= size a ->
    require_each eq fuel i a b <> Finished tt.
Proof.
  induction fuel as [|fuel IH]; intros i a b Hi Hsz; [done|].
  rewrite require_each_step.
  destruct (Z.ltb_spec i (size a)) as [Hlt|Hge]; [|lia].
  unfold at_index.
  destruct (a !! Z.to_nat i) as [x|]; cbn; [|done].
  destruct (b !! Z.to_nat i) as [y|]; cbn; [|done].
  destruct (eq x y); cbn; [|done].
  apply IH; [|done]. unfold unsigned_incr. apply Z.mod_pos_bound. lia.
Qed.

(** A comparison that succeeds was of sequences the counter can index. *)
Lemma BRepCompare_succeeds_indexable first second :
  BRepCompare_succeeds vert_eq brane_eq first second ->
  size (verts first) < 2 ^ 32 /\ size (branes first) < 2 ^ 32.
Proof.
  intros [fuel Hrun]. unfold BRepCompare in Hrun.
  destruct (size (verts first) =? size (verts second)); [|done]. cbn in Hrun.
  destruct (require_each vert_eq fuel 0 (verts first) (verts second))
    as [[]| | |] eqn:Hv; [|done..].
  cbn in Hrun.
  destruct (size (branes first) =? size (branes second)); [|done]. cbn in Hrun.
  split.
  - destruct (Z.lt_ge_cases (size (verts first)) (2 ^ 32)) as [|Hbig]; [done|].
    by destruct (require_each_too_long vert_eq fuel 0 _ (verts second)
                   ltac:(lia) Hbig).
  - destruct (Z.lt_ge_cases (size (branes first)) (2 ^ 32)) as [|Hbig]; [done|].
    by destruct (require_each_too_long brane_eq fuel 0 _ (branes second)
                   ltac:(lia) Hbig).
Qed.

End BRepCompareMore.

(** X5 ([BRepCompare] stays in range).  Whatever the two BReps are and
    however long the run is allowed to be, [BRepCompare] never indexes a
    sequence out of range: the sizes are compared before any element is
    read, and an index is read only below the size.  A run ends in success,
    in a failed [REQUIRE], or is still going. *)
Theorem BRepCompare_stays_in_range {Vert Brane : Type}
    (vert_eq : Vert -> Vert -> bool) (brane_eq : Brane -> Brane -> bool)
    (fuel : nat) (first second : BRep Vert Brane) :
  BRepCompare vert_eq brane_eq fuel first second = Finished tt
  \/ BRepCompare vert_eq brane_eq fuel first second = RequireFailed
  \/ BRepCompare vert_eq brane_eq fuel first second = OutOfFuel.
Proof.
  unfold BRepCompare.
  destruct (size (verts first) =? size (verts second)) eqn:Hlv; cbn; [|tauto].
  apply size_eqb_length in Hlv.
  pose proof (require_each_reads_in_range vert_eq fuel 0 _ _ ltac:(lia) Hlv) as Hv.
  destruct (require_each vert_eq fuel 0 (verts first) (verts second))
    as [[]| | |]; cbn; [|tauto|done|tauto].
  destruct (size (branes first) =? size (branes second)) eqn:Hlb; cbn; [|tauto].
  apply size_eqb_length in Hlb.
  pose proof (require_each_reads_in_range brane_eq fuel 0 _ _ ltac:(lia) Hlb) as Hb.
  destruct (require_each brane_eq fuel 0 (branes first) (branes second))
    as [[]| | |]; cbn; [tauto|tauto|done|tauto].
Qed.

(** X6 (the loop counter wraps).  The loops of [BRepCompare] count with a
    32-bit [unsigned] against a [size_t] bound.  When the two BReps agree
    in both sequences but one sequence has 2^32 elements or more, the
    counter returns to 0 before it reaches the size: the comparison never
    finishes, however long it runs, and so never succeeds. *)
Theorem BRepCompare_counter_wraps {Vert Brane : Type}
    (vert_eq : Vert -> Vert -> bool) (brane_eq : Brane -> Brane -> bool)
    (first second : BRep Vert Brane) (fuel : nat) :
  agree vert_eq (verts first) (verts second) ->
  agree brane_eq (branes first) (branes second) ->
  2 ^ 32 <= size (verts first) \/ 2 ^ 32 <= size (branes first) ->
  BRepCompare vert_eq brane_eq fuel first second = OutOfFuel.
Proof.
  intros Hav Hab Hbig. unfold BRepCompare.
  rewrite (proj2 (size_eqb_length _ _) (proj1 Hav)). cbn.
  destruct (Z.le_gt_cases (2 ^ 32) (size (verts first))) as [Hv|Hv].
  - by rewrite (require_each_wraps vert_eq fuel 0 _ _ ltac:(lia) Hv Hav).
  - destruct Hbig as [?|Hb]; [lia|].
    destruct (require_each_agree_outcome vert_eq fuel 0 _ _ ltac:(lia) Hav)
      as [->| ->]; cbn; [|done].
    rewrite (proj2 (size_eqb_length _ _) (proj1 Hab)). cbn.
    by apply require_each_wraps.
Qed.

Lemma huge_mesh_size : size (verts huge_mesh) = 2 ^ 32.
Proof.
  unfold size, huge_mesh, verts. rewrite length_replicate.
  apply Z2Nat.id. lia.
Qed.

Lemma huge_mesh_agree : agree Vector3f_eqb (verts huge_mesh) (verts huge_mesh).
Proof.
  split; [done|]. unfold huge_mesh, verts. intros i x y Hx Hy.
  apply lookup_replicate in Hx as [-> _]. apply lookup_replicate in Hy as [-> _].
  reflexivity.
Qed.

Lemma BRepCompare_counter_wraps_witness :
  BRepCompare Vector3f_eqb Brane3_eqb 1000 huge_mesh huge_mesh = OutOfFuel.
Proof.
  apply (BRepCompare_counter_wraps Vector3f_eqb Brane3_eqb huge_mesh huge_mesh 1000).
  - exact huge_mesh_agree.
  - split; [reflexivity|]. intros i x y Hx. discriminate Hx.
  - left. pose proof huge_mesh_size. lia.
Defined.

(** C7 ([BRepCompare] on meshes the counter cannot index).  [huge_mesh]
    has 2^32 vertices and no brane.  Compared with itself it agrees at every
    index of both sequences, with equal lengths, so exact ordered equality
    holds; yet the loop over the vertices counts with a 32-bit [unsigned]
    against the [size_t] size, the counter returns to 0 after index
    2^32 - 1, and the comparison is still running after any number of steps:
    it never succeeds. *)
Theorem BRepCompare_huge_mesh_never_ends :
  size (verts huge_mesh) = 2 ^ 32
  /\ agree Vector3f_eqb (verts huge_mesh) (verts huge_mesh)
  /\ agree Brane3_eqb (branes huge_mesh) (branes huge_mesh)
  /\ (forall fuel : nat,
        BRepCompare Vector3f_eqb Brane3_eqb fuel huge_mesh huge_mesh = OutOfFuel)
  /\ ~ BRepCompare_succeeds Vector3f_eqb Brane3_eqb huge_mesh huge_mesh.
Proof.
  split; [exact huge_mesh_size|]. split; [exact huge_mesh_agree|].
  split; [split; [reflexivity|]; intros i x y Hx; discriminate Hx|].
  assert (Hrun : forall fuel : nat,
             BRepCompare Vector3f_eqb Brane3_eqb fuel huge_mesh huge_mesh = OutOfFuel).
  { intros fuel. unfold BRepCompare. rewrite Z.eqb_refl. cbn [REQUIRE Catch.bind].
    rewrite (require_each_wraps Vector3f_eqb fuel 0);
      [done|lia| |exact huge_mesh_agree].
    rewrite huge_mesh_size. lia. }
  split; [exact Hrun|].
  intros [fuel Hfin]. rewrite Hrun in Hfin. discriminate.
Qed.

Lemma Vector3f_eqb_sym (v w : Vector3f) : Vector3f_eqb v w = Vector3f_eqb w v.
Proof.
  unfold Vector3f_eqb. cbn.
  by rewrite (eqb_sym (vx v)), (eqb_sym (vy v)), (eqb_sym (vz v)).
Qed.

Lemma Vector3f_eqb_trans (u v w : Vector3f) :
  Vector3f_eqb u v = true -> Vector3f_eqb v w = true -> Vector3f_eqb u w = true.
Proof. rewrite !Vector3f_eqb_canon. intros [Hu Huv] [Hv Hvw]. split; congruence. Qed.

Lemma Brane3_eqb_sym (a b : Brane3) : Brane3_eqb a b = Brane3_eqb b a.
Proof.
  unfold Brane3_eqb. by rewrite (Z.eqb_sym (b0 a)), (Z.eqb_sym (b1 a)), (Z.eqb_sym (b2 a)).
Qed.

Lemma agree_sym {T : Type} (eq : T -> T -> bool) (a b : list T) :
  (forall x y : T, eq x y = eq y x) -> agree eq a b -> agree eq b a.
Proof.
  intros Hsym. rewrite !agree_Forall2. intros H. apply Forall2_flip.
  eapply Forall2_impl; [exact H|]. intros x y Hxy. cbn. by rewrite Hsym.
Qed.

Lemma agree_trans {T : Type} (eq : T -> T -> bool) (a b c : list T) :
  (forall x y z : T, eq x y = true -> eq y z = true -> eq x z = true) ->
  agree eq a b -> agree eq b c -> agree eq a c.
Proof.
  intros Htrans. rewrite !agree_Forall2. intros Hab Hbc.
  eapply Forall2_trans; [|exact Hab|exact Hbc]. exact Htrans.
Qed.

Lemma agree_size {T : Type} (eq : T -> T -> bool) (a b : list T) :
  agree eq a b -> size b = size a.
Proof. intros [Hlen _]. unfold size. lia. Qed.

(** What agreement of vertex sequences and of brane sequences amounts
    to. *)
Lemma agree_verts_canon (a b : list Vector3f) :
  agree Vector3f_eqb a b
  <-> Forall (fun v => Vector3f_has_nan v = false) a
      /\ Vector3f_canon <$> a = Vector3f_canon <$> b.
Proof.
  rewrite agree_Forall2, <- Forall2_canon. split; intros H.
  - eapply Forall2_impl; [exact H|]. intros v w. by rewrite Vector3f_eqb_canon.
  - eapply Forall2_impl; [exact H|]. intros v w. by rewrite Vector3f_eqb_canon.
Qed.

(** X7 (what passing [BRepCompare] means on a [BRep<3>]).  With the
    coefficient-wise [==] of float vectors and of index vectors, and for
    sequences the counter can index, the comparison succeeds exactly when no
    vertex of the first mesh has a NaN coordinate, the two vertex sequences
    are the same up to the signs of zero coordinates, and the two brane
    sequences are the same. *)
Theorem BRepCompare3_characterised (first second : BRep3) :
  size (verts first) < 2 ^ 32 -> size (branes first) < 2 ^ 32 ->
  BRepCompare_succeeds Vector3f_eqb Brane3_eqb first second
  <-> Forall (fun v => Vector3f_has_nan v = false) (verts first)
      /\ Vector3f_canon <$> verts first = Vector3f_canon <$> verts second
      /\ branes first = branes second.
Proof.
  intros Hv Hb.
  rewrite (BRepCompare_succeeds_agree _ _ _ _ Hv Hb), agree_verts_canon.
  rewrite (agree_eq Brane3_eqb _ _ Brane3_eqb_eq). tauto.
Qed.

Lemma BRepCompare3_characterised_witness :
  BRepCompare_succeeds Vector3f_eqb Brane3_eqb
    (mkBRep [mkVector3f (S754_zero true) Float32.one Float32.zero] [mkBrane3 0 0 0])
    (mkBRep [mkVector3f (S754_zero false) Float32.one Float32.zero] [mkBrane3 0 0 0]).
Proof.
  apply (BRepCompare3_characterised
           (mkBRep [mkVector3f (S754_zero true) Float32.one Float32.zero] [mkBrane3 0 0 0])
           (mkBRep [mkVector3f (S754_zero false) Float32.one Float32.zero] [mkBrane3 0 0 0])
           eq_refl eq_refl).
  split; [|split; reflexivity]. by repeat constructor.
Defined.

(** X8 (a mesh compared with itself).  [BRepCompare(m, m)] succeeds if
    and only if no vertex of [m] has a NaN coordinate and both sequences of
    [m] have fewer than 2^32 elements: a single NaN makes a mesh differ from
    itself, and on a longer mesh the comparison never finishes. *)
Theorem BRepCompare3_self (m : BRep3) :
  BRepCompare_succeeds Vector3f_eqb Brane3_eqb m m
  <-> Forall (fun v => Vector3f_has_nan v = false) (verts m)
      /\ size (verts m) < 2 ^ 32 /\ size (branes m) < 2 ^ 32.
Proof.
  split.
  - intros Hrun.
    destruct (BRepCompare_succeeds_indexable _ _ _ _ Hrun) as [Hv Hb].
    apply (BRepCompare_succeeds_agree _ _ _ _ Hv Hb) in Hrun as [Hav _].
    apply agree_verts_canon in Hav as [Hnan _]. done.
  - intros (Hnan & Hv & Hb).
    apply (BRepCompare_succeeds_agree _ _ _ _ Hv Hb). split.
    + by apply agree_verts_canon.
    + by apply (agree_eq Brane3_eqb _ _ Brane3_eqb_eq).
Qed.

Lemma BRepCompare3_self_witness :
  BRepCompare_succeeds Vector3f_eqb Brane3_eqb triangle triangle.
Proof.
  apply (proj2 (BRepCompare3_self triangle)).
  split; [by repeat constructor|]. split; reflexivity.
Defined.

(** X9 (passing [BRepCompare] is symmetric and transitive).  On
    [BRep<3>] values whose sequences the counter can index, if
    [BRepCompare(a, b)] succeeds then so does [BRepCompare(b, a)], and if
    [BRepCompare(b, c)] succeeds as well then so does [BRepCompare(a, c)]. *)
Theorem BRepCompare3_symmetric_transitive (a b c : BRep3) :
  size (verts a) < 2 ^ 32 -> size (branes a) < 2 ^ 32 ->
  BRepCompare_succeeds Vector3f_eqb Brane3_eqb a b ->
  BRepCompare_succeeds Vector3f_eqb Brane3_eqb b a
  /\ (BRepCompare_succeeds Vector3f_eqb Brane3_eqb b c ->
      BRepCompare_succeeds Vector3f_eqb Brane3_eqb a c).
Proof.
  intros Hv Hb Hab.
  apply (BRepCompare_succeeds_agree _ _ _ _ Hv Hb) in Hab as [Hav Hab].
  assert (Hv' : size (verts b) < 2 ^ 32) by (rewrite (agree_size _ _ _ Hav); lia).
  assert (Hb' : size (branes b) < 2 ^ 32) by (rewrite (agree_size _ _ _ Hab); lia).
  split.
  - apply (BRepCompare_succeeds_agree _ _ _ _ Hv' Hb'). split.
    + apply agree_sym; [apply Vector3f_eqb_sym|done].
    + apply agree_sym; [apply Brane3_eqb_sym|done].
  - intros Hbc.
    apply (BRepCompare_succeeds_agree _ _ _ _ Hv' Hb') in Hbc as [Hbv Hbb].
    apply (BRepCompare_succeeds_agree _ _ _ _ Hv Hb). split.
    + eapply agree_trans; [apply Vector3f_eqb_trans|done|done].
    + eapply agree_trans; [|exact Hab|exact Hbb].
      intros x y z. rewrite !Brane3_eqb_eq. congruence.
Qed.

(** On three meshes that differ in the signs of zeros: from
    [BRepCompare(zeros_pp, zeros_np)] and [BRepCompare(zeros_np, zeros_nn)]
    to [BRepCompare(zeros_np, zeros_pp)] and
    [BRepCompare(zeros_pp, zeros_nn)]. *)
Lemma BRepCompare3_symmetric_transitive_witness :
  BRepCompare_succeeds Vector3f_eqb Brane3_eqb zeros_np zeros_pp
  /\ BRepCompare_succeeds Vector3f_eqb Brane3_eqb zeros_pp zeros_nn.
Proof.
  pose proof (BRepCompare3_symmetric_transitive zeros_pp zeros_np zeros_nn
                eq_refl eq_refl (ex_intro _ 2%nat eq_refl)) as [Hsym Htrans].
  split; [exact Hsym|]. apply Htrans. exists 2%nat. reflexivity.
Defined.

(** ** More on AxisOracle<A> and its clause *)

Lemma inside_iff (lo hi p : Vector3f) :
  inside lo hi p = true
  <-> forall A : Axis,
        Float32.leb (coeff lo A) (coeff p A) = true
        /\ Float32.leb (coeff p A) (coeff hi A) = true.
Proof.
  split; [intros H A; by apply inside_axis|].
  intros H. unfold inside. apply forallb_forall. intros A _.
  by destruct (H A) as [-> ->].
Qed.

(** X1 (the three axis oracles bound exactly the region).  For a sample
    of the bound batch, the sample lies inside the region the oracles hold
    if and only if, for each of the three axes, the value [evalPoint] gives
    for the sample lies within the interval [evalInterval] gives: the three
    intervals exclude every sample outside the region. *)
Theorem AxisOracles_bound_exactly (s : OracleStorage) (index : nat)
    (p : Vector3f) (out_p : float) (out_i : Interval.I) :
  points s !! index = Some p ->
  inside (lower s) (upper s) p = true
  <-> forall A : Axis,
        exists v : float,
          fst <$> evalPoint out_p index (@mkAxisOracle A s) = Some v
          /\ Interval.contains (fst (evalInterval out_i (@mkAxisOracle A s))) v
             = true.
Proof.
  intros Hp. rewrite inside_iff. split.
  - intros H A. exists (coeff p A).
    rewrite (evalPoint_Some (@mkAxisOracle A s) index p out_p Hp), evalInterval_eq.
    split; [done|]. unfold Interval.contains. cbn. by destruct (H A) as [-> ->].
  - intros H A. destruct (H A) as (v & Hv & Hc).
    rewrite (evalPoint_Some (@mkAxisOracle A s) index p out_p Hp) in Hv.
    injection Hv as <-. rewrite evalInterval_eq in Hc.
    unfold Interval.contains in Hc. cbn in Hc. by apply andb_prop in Hc.
Qed.

Lemma AxisOracles_bound_exactly_witness :
  inside (lower sample_storage) (upper sample_storage)
         (mkVector3f (Float32.of_dyadic 1 (-1)) Float32.zero (Float32.of_int (-1)))
  = true
  <-> forall A : Axis,
        exists v : float,
          fst <$> evalPoint Float32.zero 0 (@mkAxisOracle A sample_storage) = Some v
          /\ Interval.contains
               (fst (evalInterval (Interval.mkI Float32.zero Float32.zero)
                       (@mkAxisOracle A sample_storage))) v
             = true.
Proof.
  exact (AxisOracles_bound_exactly sample_storage 0
           (mkVector3f (Float32.of_dyadic 1 (-1)) Float32.zero (Float32.of_int (-1)))
           Float32.zero (Interval.mkI Float32.zero Float32.zero) eq_refl).
Defined.

(** X2 (the interval of an axis oracle is tight).  When the region is
    not empty (its lower corner is below its upper corner on every axis),
    the two corners lie inside the region, and at samples placed on them
    [evalPoint] returns exactly the lower and the upper bound that
    [evalInterval] returns: both bounds are attained, so no narrower
    interval is sound. *)
Theorem AxisOracle_interval_tight (A : Axis) (this : AxisOracle A)
    (i_lo i_hi : nat) (out_p : float) (out_i : Interval.I) :
  points (base this) !! i_lo = Some (lower (base this)) ->
  points (base this) !! i_hi = Some (upper (base this)) ->
  (forall B : Axis,
     Float32.leb (coeff (lower (base this)) B) (coeff (upper (base this)) B) = true) ->
  inside (lower (base this)) (upper (base this)) (lower (base this)) = true
  /\ inside (lower (base this)) (upper (base this)) (upper (base this)) = true
  /\ fst <$> evalPoint out_p i_lo this
     = Some (Interval.lower (fst (evalInterval out_i this)))
  /\ fst <$> evalPoint out_p i_hi this
     = Some (Interval.upper (fst (evalInterval out_i this))).
Proof.
  intros Hlo Hhi Hne.
  rewrite (evalPoint_Some this i_lo _ out_p Hlo),
          (evalPoint_Some this i_hi _ out_p Hhi), evalInterval_eq.
  rewrite !inside_iff. repeat split; try apply Hne.
  - apply leb_refl. by destruct (leb_not_nan _ _ (Hne A0)).
  - apply leb_refl. by destruct (leb_not_nan _ _ (Hne A0)).
Qed.

Lemma AxisOracle_interval_tight_witness :
  let this : AxisOracle Axis1 :=
    mkAxisOracle (mkOracleStorage (lower sample_storage) (upper sample_storage)
                    [lower sample_storage; upper sample_storage]) in
  fst <$> evalPoint Float32.zero 0 this = Some (Float32.of_int (-1))
  /\ fst <$> evalPoint Float32.zero 1 this = Some (Float32.of_int 1).
Proof.
  cbn zeta.
  pose proof (AxisOracle_interval_tight Axis1
                (mkAxisOracle
                   (mkOracleStorage (lower sample_storage) (upper sample_storage)
                      [lower sample_storage; upper sample_storage]))
                0 1 Float32.zero (Interval.mkI Float32.zero Float32.zero)
                eq_refl eq_refl) as H.
  destruct H as (_ & _ & H0 & H1); [by intros []|].
  split; [exact H0|exact H1].
Defined.

(** X3 ([evalFeatures] accumulates).  [evalFeatures] never removes or
    alters a feature that its output already holds: [n] calls in a row on
    the same output leave what it held in place and add [n] copies of the
    unit feature after it, and leave the oracle as it was.  A caller that
    does not clear the output between calls gets the feature once per
    call. *)
Theorem AxisOracle_evalFeatures_accumulates (A : Axis) (this : AxisOracle A)
    (n : nat) (out : list Feature) :
  evalFeatures_times n out this
  = (out ++ replicate n (mkFeature (unit_vector A)), this)
  /\ length (fst (evalFeatures_times n out this)) = (length out + n)%nat
  /\ take (length out) (fst (evalFeatures_times n out this)) = out.
Proof.
  assert (H : evalFeatures_times n out this
              = (out ++ replicate n (mkFeature (unit_vector A)), this)).
  { revert out. induction n as [|n IH]; intros out; cbn [evalFeatures_times].
    - by rewrite app_nil_r.
    - rewrite evalFeatures_eq, IH. by rewrite <- app_assoc. }
  rewrite H. cbn [fst]. split; [done|]. split.
  - by rewrite length_app, length_replicate.
  - by rewrite take_app_length.
Qed.

(** X4 (every call of [getOracle] makes a new oracle).  [n] calls in a
    row on one clause, with every returned pointer kept, give [n] pointers
    that are not null and are pairwise distinct; each points to a location
    that was free before the calls and now holds a newly constructed
    [AxisOracle<A>]; the objects that were on the store before are
    untouched, and the store has grown by exactly [n] objects. *)
Theorem AxisOracleClause_getOracle_times (A : Axis) (this : AxisOracleClause A)
    (n : nat) (h : Heap) :
  let ps := fst (getOracle_times n this h) in
  let h' := snd (getOracle_times n this h) in
  length ps = n
  /\ NoDup ps
  /\ (forall p : unique_ptr, p ∈ ps ->
        exists l : loc,
          p = Some l /\ h !! l = None
          /\ h' !! l = Some (Obj_AxisOracle A (AxisOracle_new A)))
  /\ (forall l : loc, is_Some (h !! l) -> h' !! l = h !! l)
  /\ stdpp.base.size h' = (stdpp.base.size h + n)%nat.
Proof.
  cbn zeta. revert h. induction n as [|n IH]; intros h; cbn [getOracle_times].
  - cbn. split; [done|]. split; [constructor|].
    split; [by intros p ?%elem_of_nil|]. split; [done|lia].
  - rewrite getOracle_eq.
    set (l0 := fresh (dom h)).
    set (h1 := <[l0 := Obj_AxisOracle A (AxisOracle_new A)]> h).
    assert (Hl0 : h !! l0 = None) by apply not_elem_of_dom, is_fresh.
    destruct (IH h1) as (Hlen & Hnd & Hnew & Hold & Hsize).
    destruct (getOracle_times n this h1) as [ps h2]. cbn [fst snd] in *.
    assert (Hl0' : h2 !! l0 = Some (Obj_AxisOracle A (AxisOracle_new A))).
    { rewrite Hold; unfold h1; rewrite lookup_insert_eq; done. }
    split; [|split; [|split; [|split]]].
    + by rewrite <- Hlen.
    + constructor; [|done]. intros Hin.
      destruct (Hnew _ Hin) as (l & [= <-] & Hfree & _).
      unfold h1 in Hfree. by rewrite lookup_insert_eq in Hfree.
    + intros p [->|Hin]%elem_of_cons.
      * by exists l0.
      * destruct (Hnew _ Hin) as (l & -> & Hfree & Hobj).
        exists l. split; [done|]. split; [|done].
        unfold h1 in Hfree. apply lookup_insert_None in Hfree. tauto.
    + intros l Hl. rewrite Hold.
      * unfold h1. rewrite lookup_insert_ne; [done|]. intros <-.
        rewrite Hl0 in Hl. by destruct Hl.
      * unfold h1. rewrite lookup_insert_ne; [done|]. intros <-.
        rewrite Hl0 in Hl. by destruct Hl.
    + rewrite Hsize. unfold h1. rewrite map_size_insert_None by done. lia.
Qed.

(** ** Ranks: comparisons among a few values as comparisons of integers *)

Section RankFacts.

Import FloatOrder.
Implicit Types (a b c u v w : float) (S : list float).

Lemma ltb_not_nan a b :
  Float32.ltb a b = true -> is_nan a = false /\ is_nan b = false.
Proof.
  intros H.
  destruct (is_nan a) eqn:Ha; [by rewrite ltb_nan in H; [|left]|].
  destruct (is_nan b) eqn:Hb; [by rewrite ltb_nan in H; [|right]|].
  done.
Qed.

Lemma ltb_trans a b c :
  Float32.ltb a b = true -> Float32.ltb b c = true -> Float32.ltb a c = true.
Proof.
  intros Hab Hbc.
  destruct (ltb_not_nan _ _ Hab) as [Ha Hb], (ltb_not_nan _ _ Hbc) as [_ Hc].
  apply ltb_key in Hab, Hbc; try done. apply ltb_key; [done..|].
  by apply lex_lt_trans with (key b).
Qed.

Lemma ltb_irrefl a : Float32.ltb a a = false.
Proof.
  destruct (Float32.ltb a a) eqn:H; [|done].
  destruct (ltb_not_nan _ _ H) as [Ha _]. apply ltb_key in H; [|done..].
  by destruct (lex_lt_irrefl (key a)).
Qed.

Lemma eqb_not_nan a b :
  Float32.eqb a b = true -> is_nan a = false /\ is_nan b = false.
Proof.
  intros H.
  destruct (is_nan a) eqn:Ha; [by rewrite eqb_nan in H; [|left]|].
  destruct (is_nan b) eqn:Hb; [by rewrite eqb_nan in H; [|right]|].
  done.
Qed.

Lemma ltb_eqb_r u w v :
  Float32.eqb u w = true -> Float32.ltb v u = Float32.ltb v w.
Proof.
  intros Heq. destruct (eqb_not_nan _ _ Heq) as [Hu Hw].
  apply eqb_key in Heq; [|done..].
  destruct (is_nan v) eqn:Hv; [by rewrite !ltb_nan by (by left)|].
  destruct (Float32.ltb v u) eqn:H1, (Float32.ltb v w) eqn:H2; try done.
  - apply ltb_key in H1; [|done..]. rewrite Heq in H1.
    apply ltb_key in H1; [|done..]. congruence.
  - apply ltb_key in H2; [|done..]. rewrite <- Heq in H2.
    apply ltb_key in H2; [|done..]. congruence.
Qed.

(** Of two values that are not NaN, one is below the other or they are
    equal, and only one of the three holds. *)
Lemma compare_cases a b :
  is_nan a = false -> is_nan b = false ->
  (Float32.ltb a b = true /\ Float32.eqb a b = false /\ Float32.ltb b a = false)
  \/ (Float32.ltb a b = false /\ Float32.eqb a b = true /\ Float32.ltb b a = false)
  \/ (Float32.ltb a b = false /\ Float32.eqb a b = false /\ Float32.ltb b a = true).
Proof.
  intros Ha Hb.
  pose proof (ltb_key a b Ha Hb) as Hlt. pose proof (ltb_key b a Hb Ha) as Hgt.
  pose proof (eqb_key a b Ha Hb) as Heq.
  destruct (lex_trichotomy (key a) (key b)) as [H|[H|H]].
  - left. split; [by apply Hlt|]. split.
    + destruct (Float32.eqb a b); [|done]. rewrite (proj1 Heq eq_refl) in H.
      by destruct (lex_lt_irrefl (key b)).
    + destruct (Float32.ltb b a); [|done].
      destruct (lex_lt_irrefl (key a)).
      apply lex_lt_trans with (key b); [done|by apply Hgt].
  - right. left. split; [|split; [by apply Heq|]].
    + destruct (Float32.ltb a b); [|done]. pose proof (proj1 Hlt eq_refl) as H'.
      rewrite H in H'. by destruct (lex_lt_irrefl (key b)).
    + destruct (Float32.ltb b a); [|done]. pose proof (proj1 Hgt eq_refl) as H'.
      rewrite H in H'. by destruct (lex_lt_irrefl (key b)).
  - right. right. split; [|split; [|by apply Hgt]].
    + destruct (Float32.ltb a b); [|done].
      destruct (lex_lt_irrefl (key a)).
      apply lex_lt_trans with (key b); [by apply Hlt|done].
    + destruct (Float32.eqb a b); [|done]. rewrite (proj1 Heq eq_refl) in H.
      by destruct (lex_lt_irrefl (key b)).
Qed.

Lemma rank_le S u w :
  Float32.ltb u w = true \/ Float32.eqb u w = true -> rank S u <= rank S w.
Proof.
  intros H. unfold rank. apply inj_le.
  induction S as [|v S IH]; [done|]. cbn [List.filter].
  assert (Hv : Float32.ltb v u = true -> Float32.ltb v w = true).
  { destruct H as [H|H]; [intros Hvu; by apply ltb_trans with u|].
    by rewrite (ltb_eqb_r u w v H). }
  destruct (Float32.ltb v u).
  - rewrite Hv by done. cbn. lia.
  - destruct (Float32.ltb v w); cbn; lia.
Qed.

Lemma rank_lt S u w :
  Float32.ltb u w = true -> In u S -> rank S u < rank S w.
Proof.
  intros Hlt Hin. unfold rank. apply inj_lt.
  induction S as [|v S IH]; [done|]. cbn [List.filter].
  pose proof (rank_le S u w (or_introl Hlt)) as Hle. unfold rank in Hle.
  destruct Hin as [->|Hin].
  - rewrite ltb_irrefl, Hlt. cbn. lia.
  - specialize (IH Hin).
    assert (Hv : Float32.ltb v u = true -> Float32.ltb v w = true).
    { intros Hvu. by apply ltb_trans with u. }
    destruct (Float32.ltb v u).
    + rewrite Hv by done. cbn. lia.
    + destruct (Float32.ltb v w); cbn; lia.
Qed.

Lemma rank_eq S u w : Float32.eqb u w = true -> rank S u = rank S w.
Proof.
  intros H. unfold rank. f_equal. f_equal.
  induction S as [|v S IH]; [done|]. cbn. by rewrite IH, (ltb_eqb_r u w v H).
Qed.

(** Among the values of [S] that are not NaN, the three comparisons are
    the comparisons of the ranks. *)
Lemma rank_spec S u w :
  is_nan u = false -> is_nan w = false -> In u S -> In w S ->
  Float32.ltb u w = (rank S u <? rank S w)
  /\ Float32.eqb u w = (rank S u =? rank S w)
  /\ Float32.leb u w = (rank S u <=? rank S w).
Proof.
  intros Hu Hw HuS HwS. rewrite leb_ltb_eqb.
  destruct (compare_cases u w Hu Hw) as [(H1 & H2 & H3)|[(H1 & H2 & H3)|(H1 & H2 & H3)]];
    rewrite H1, H2.
  - pose proof (rank_lt S u w H1 HuS).
    repeat split; symmetry; [apply Z.ltb_lt|apply Z.eqb_neq|apply Z.leb_le]; lia.
  - pose proof (rank_eq S u w H2).
    repeat split; symmetry; [apply Z.ltb_ge|apply Z.eqb_eq|apply Z.leb_le]; lia.
  - pose proof (rank_lt S w u H3 HwS).
    repeat split; symmetry; [apply Z.ltb_ge|apply Z.eqb_neq|apply Z.leb_gt]; lia.
Qed.

End RankFacts.

(** ** The cube oracle of the disabled test *)

Section CubeOracleFacts.

Import FloatOrder.
Implicit Types (x y z : float) (point : Vector3f).

Lemma abs_not_nan x : is_nan (cubeAsOracle.abs x) = is_nan x.
Proof. by destruct x. Qed.

(** Two absolute values that compare equal are the same value. *)
Lemma abs_eqb_eq x y :
  Float32.eqb (cubeAsOracle.abs x) (cubeAsOracle.abs y) = true ->
  cubeAsOracle.abs x = cubeAsOracle.abs y.
Proof.
  intros [_ H]%eqb_canon.
  destruct x as [[]|[]| |[] mx ex], y as [[]|[]| |[] my ey]; cbn in *; congruence.
Qed.

Lemma eqb_zero_leb x :
  Float32.eqb x cubeAsOracle.f0
  = Float32.leb cubeAsOracle.f0 x && Float32.leb x cubeAsOracle.f0.
Proof. by destruct x as [[]|[]| |[] m e]. Qed.

(** The sign tests on a coordinate, against the place of its absolute
    value relative to zero. *)
Lemma sign_cases x :
  is_nan x = false ->
  (Float32.leb cubeAsOracle.f0 x = true /\ Float32.leb x cubeAsOracle.f0 = true
   /\ Float32.eqb cubeAsOracle.f0 (cubeAsOracle.abs x) = true)
  \/ (Float32.leb cubeAsOracle.f0 x = true /\ Float32.leb x cubeAsOracle.f0 = false
      /\ Float32.ltb cubeAsOracle.f0 (cubeAsOracle.abs x) = true)
  \/ (Float32.leb cubeAsOracle.f0 x = false /\ Float32.leb x cubeAsOracle.f0 = true
      /\ Float32.ltb cubeAsOracle.f0 (cubeAsOracle.abs x) = true).
Proof. destruct x as [[]|[]| |[] m e]; try done; cbn; tauto. Qed.

(** The comparisons of [u] with [w] are those of the integers [ru] and
    [rw]. *)
Let compared (u w : float) (ru rw : Z) : Prop :=
  Float32.ltb u w = (ru <? rw)
  /\ Float32.eqb u w = (ru =? rw)
  /\ Float32.leb u w = (ru <=? rw).

(** The sign tests on [x], with [r] the rank of its absolute value and
    [r0] the rank of zero. *)
Let signed (x : float) (r r0 : Z) : Prop :=
  (Float32.leb cubeAsOracle.f0 x = true /\ Float32.leb x cubeAsOracle.f0 = true
   /\ r = r0)
  \/ (Float32.leb cubeAsOracle.f0 x = true /\ Float32.leb x cubeAsOracle.f0 = false
      /\ r0 < r)
  \/ (Float32.leb cubeAsOracle.f0 x = false /\ Float32.leb x cubeAsOracle.f0 = true
      /\ r0 < r).

(** Every comparison the oracle makes on a point without NaN is a
    comparison among four integers. *)
Lemma cube_ranks x y z :
  is_nan x = false -> is_nan y = false -> is_nan z = false ->
  let a := cubeAsOracle.abs x in
  let b := cubeAsOracle.abs y in
  let c := cubeAsOracle.abs z in
  exists r0 ra rb rc : Z,
    compared a b ra rb /\ compared b a rb ra
    /\ compared a c ra rc /\ compared c a rc ra
    /\ compared b c rb rc /\ compared c b rc rb
    /\ signed x ra r0 /\ signed y rb r0 /\ signed z rc r0
    /\ (ra = rb -> a = b) /\ (ra = rc -> a = c) /\ (rb = rc -> b = c).
Proof.
  intros Hx Hy Hz a b c.
  set (S := [cubeAsOracle.f0; a; b; c]).
  assert (Ha : is_nan a = false) by (unfold a; by rewrite abs_not_nan).
  assert (Hb : is_nan b = false) by (unfold b; by rewrite abs_not_nan).
  assert (Hc : is_nan c = false) by (unfold c; by rewrite abs_not_nan).
  assert (H0S : In cubeAsOracle.f0 S) by (cbn; tauto).
  assert (HaS : In a S) by (cbn; tauto).
  assert (HbS : In b S) by (cbn; tauto).
  assert (HcS : In c S) by (cbn; tauto).
  assert (Hsign : forall t, is_nan t = false -> In (cubeAsOracle.abs t) S ->
                    signed t (rank S (cubeAsOracle.abs t)) (rank S cubeAsOracle.f0)).
  { intros t Ht HtS. unfold signed.
    destruct (sign_cases t Ht) as [(-> & -> & H)|[(-> & -> & H)|(-> & -> & H)]].
    - left. repeat split. symmetry. by apply rank_eq.
    - right. left. repeat split. by apply rank_lt.
    - right. right. repeat split. by apply rank_lt. }
  assert (Heq : forall t t', is_nan t = false -> is_nan t' = false ->
                  In (cubeAsOracle.abs t) S -> In (cubeAsOracle.abs t') S ->
                  rank S (cubeAsOracle.abs t) = rank S (cubeAsOracle.abs t') ->
                  cubeAsOracle.abs t = cubeAsOracle.abs t').
  { intros t t' Ht Ht' HtS HtS' Hr. apply abs_eqb_eq.
    assert (Hnt : is_nan (cubeAsOracle.abs t) = false) by (by rewrite abs_not_nan).
    assert (Hnt' : is_nan (cubeAsOracle.abs t') = false) by (by rewrite abs_not_nan).
    rewrite (proj1 (proj2 (rank_spec S _ _ Hnt Hnt' HtS HtS'))).
    by apply Z.eqb_eq. }
  exists (rank S cubeAsOracle.f0), (rank S a), (rank S b), (rank S c).
  split; [by apply rank_spec|]. split; [by apply rank_spec|].
  split; [by apply rank_spec|]. split; [by apply rank_spec|].
  split; [by apply rank_spec|]. split; [by apply rank_spec|].
  split; [by apply Hsign|]. split; [by apply Hsign|]. split; [by apply Hsign|].
  split; [by apply Heq|]. split; by apply Heq.
Qed.

End CubeOracleFacts.

Ltac z_case :=
  match goal with
  | |- context [Z.ltb ?u ?v] => destruct (Z.ltb_spec u v); try (exfalso; lia)
  | |- context [Z.leb ?u ?v] => destruct (Z.leb_spec u v); try (exfalso; lia)
  | |- context [Z.eqb ?u ?v] => destruct (Z.eqb_spec u v); try (exfalso; lia)
  end.

(** Rewrites the comparisons of floats whose ranks are known into
    comparisons of integers, and splits on those. *)
Ltac float_to_Z :=
  repeat match goal with
  | H : Float32.ltb ?u ?w = _ |- context [Float32.ltb ?u ?w] => rewrite H
  | H : Float32.eqb ?u ?w = _ |- context [Float32.eqb ?u ?w] => rewrite H
  | H : Float32.leb ?u ?w = _ |- context [Float32.leb ?u ?w] => rewrite H
  end.

Ltac cube_to_ranks := repeat (float_to_Z; z_case); float_to_Z.

(** X10 (ambiguity and gradients of the cube oracle agree).  In the cube
    oracle of the disabled test, with [abs] read as the absolute value of a
    float: for every point with no NaN coordinate, [isAmbiguous] is true if
    and only if [getGradients] returns two or more gradients. *)
Theorem cubeAsOracle_ambiguous_iff_gradients (point : Vector3f) :
  Vector3f_has_nan point = false ->
  cubeAsOracle.isAmbiguous point = true
  <-> (2 <= length (cubeAsOracle.gradients (cubeAsOracle.getGradients point)))%nat.
Proof.
  intros (Hx & Hy & Hz)%Vector3f_has_nan_false.
  destruct (cube_ranks _ _ _ Hx Hy Hz)
    as (r0 & ra & rb & rc & (Hab1 & Hab2 & Hab3) & (Hba1 & Hba2 & Hba3)
        & (Hac1 & Hac2 & Hac3) & (Hca1 & Hca2 & Hca3)
        & (Hbc1 & Hbc2 & Hbc3) & (Hcb1 & Hcb2 & Hcb3) & Sx & Sy & Sz
        & Eab & Eac & Ebc).
  unfold cubeAsOracle.isAmbiguous, cubeAsOracle.getGradients,
    cubeAsOracle.ge, cubeAsOracle.le, cubeAsOracle.eq, Arith.fmax,
    cubeAsOracle.push_back.
  cbn [cubeAsOracle.gradients].
  destruct Sx as [(-> & -> & ?)|[(-> & -> & ?)|(-> & -> & ?)]];
  destruct Sy as [(-> & -> & ?)|[(-> & -> & ?)|(-> & -> & ?)]];
  destruct Sz as [(-> & -> & ?)|[(-> & -> & ?)|(-> & -> & ?)]].
  all: cube_to_ranks.
  all: cbn; split; intros; first [reflexivity | lia | discriminate].
Qed.

Lemma cubeAsOracle_ambiguous_iff_gradients_witness :
  cubeAsOracle.isAmbiguous
    (mkVector3f Float32.one (SFopp Float32.one) Float32.zero) = true
  <-> (2 <= length (cubeAsOracle.gradients
                      (cubeAsOracle.getGradients
                         (mkVector3f Float32.one (SFopp Float32.one) Float32.zero))))%nat.
Proof.
  exact (cubeAsOracle_ambiguous_iff_gradients
           (mkVector3f Float32.one (SFopp Float32.one) Float32.zero) eq_refl).
Defined.

(** With a NaN coordinate the two can disagree: at (NaN, 0, 0) the point
    is not reported ambiguous and two gradients are returned. *)
Example cubeAsOracle_nan :
  let point := mkVector3f S754_nan Float32.zero Float32.zero in
  cubeAsOracle.isAmbiguous point = false
  /\ length (cubeAsOracle.gradients (cubeAsOracle.getGradients point)) = 2%nat.
Proof. split; reflexivity. Qed.

(** On an edge of the field two gradients are returned, not three. *)
Example cubeAsOracle_edge :
  let point := mkVector3f Float32.one Float32.one Float32.zero in
  cubeAsOracle.isAmbiguous point = true
  /\ cubeAsOracle.gradients (cubeAsOracle.getGradients point)
     = [mkVector3f Float32.one Float32.zero Float32.zero;
        mkVector3f Float32.zero Float32.one Float32.zero].
Proof. split; reflexivity. Qed.

(** X11 (how many gradients the cube oracle returns).  For every point
    with no NaN coordinate [getGradients] returns one, two, three or six
    gradients, never none; it returns six exactly at the points whose three
    coordinates are zero. *)
Theorem cubeAsOracle_gradient_count (point : Vector3f) :
  Vector3f_has_nan point = false ->
  let n := length (cubeAsOracle.gradients (cubeAsOracle.getGradients point)) in
  (n = 1 \/ n = 2 \/ n = 3 \/ n = 6)%nat
  /\ (n = 6%nat
      <-> Float32.eqb (vx point) cubeAsOracle.f0
          && Float32.eqb (vy point) cubeAsOracle.f0
          && Float32.eqb (vz point) cubeAsOracle.f0 = true).
Proof.
  intros (Hx & Hy & Hz)%Vector3f_has_nan_false. cbn zeta.
  rewrite !eqb_zero_leb.
  destruct (cube_ranks _ _ _ Hx Hy Hz)
    as (r0 & ra & rb & rc & (Hab1 & Hab2 & Hab3) & (Hba1 & Hba2 & Hba3)
        & (Hac1 & Hac2 & Hac3) & (Hca1 & Hca2 & Hca3)
        & (Hbc1 & Hbc2 & Hbc3) & (Hcb1 & Hcb2 & Hcb3) & Sx & Sy & Sz
        & Eab & Eac & Ebc).
  unfold cubeAsOracle.getGradients,
    cubeAsOracle.ge, cubeAsOracle.le, cubeAsOracle.eq, Arith.fmax,
    cubeAsOracle.push_back.
  cbn [cubeAsOracle.gradients].
  destruct Sx as [(-> & -> & ?)|[(-> & -> & ?)|(-> & -> & ?)]];
  destruct Sy as [(-> & -> & ?)|[(-> & -> & ?)|(-> & -> & ?)]];
  destruct Sz as [(-> & -> & ?)|[(-> & -> & ?)|(-> & -> & ?)]].
  all: cube_to_ranks.
  all: cbn; split; [lia|]; split; intros; first [reflexivity | lia | discriminate].
Qed.

Lemma cubeAsOracle_gradient_count_witness :
  length (cubeAsOracle.gradients (cubeAsOracle.getGradients Vector3f_Zero)) = 6%nat
  <-> Float32.eqb (vx Vector3f_Zero) cubeAsOracle.f0
      && Float32.eqb (vy Vector3f_Zero) cubeAsOracle.f0
      && Float32.eqb (vz Vector3f_Zero) cubeAsOracle.f0 = true.
Proof.
  exact (proj2 (cubeAsOracle_gradient_count Vector3f_Zero eq_refl)).
Defined.

(** An axis whose test in [getGradients] passes carries the greatest
    absolute value, and that value is the one [getValue] uses. *)
Lemma cube_axis_facts (x y z : float) :
  FloatOrder.is_nan x = false -> FloatOrder.is_nan y = false ->
  FloatOrder.is_nan z = false ->
  let a := cubeAsOracle.abs x in
  let b := cubeAsOracle.abs y in
  let c := cubeAsOracle.abs z in
  let m := Arith.fmax (Arith.fmax a b) c in
  (Float32.leb (Arith.fmax b c) a = true ->
   Float32.leb b a = true /\ Float32.leb c a = true /\ m = a)
  /\ (Float32.leb (Arith.fmax a c) b = true ->
      Float32.leb a b = true /\ Float32.leb c b = true /\ m = b)
  /\ (Float32.leb (Arith.fmax b a) c = true ->
      Float32.leb a c = true /\ Float32.leb b c = true /\ m = c).
Proof.
  intros Hx Hy Hz. cbn zeta.
  destruct (cube_ranks _ _ _ Hx Hy Hz)
    as (r0 & ra & rb & rc & (Hab1 & Hab2 & Hab3) & (Hba1 & Hba2 & Hba3)
        & (Hac1 & Hac2 & Hac3) & (Hca1 & Hca2 & Hca3)
        & (Hbc1 & Hbc2 & Hbc3) & (Hcb1 & Hcb2 & Hcb3) & _ & _ & _
        & Eab & Eac & Ebc).
  unfold Arith.fmax.
  split; [|split]; cube_to_ranks; intros Hcond; try discriminate Hcond;
    (split; [reflexivity|split; [reflexivity|]]);
    first [ reflexivity
          | apply Eab; lia | symmetry; apply Eab; lia
          | apply Eac; lia | symmetry; apply Eac; lia
          | apply Ebc; lia | symmetry; apply Ebc; lia ].
Qed.

(** Where a gradient of [getGradients] comes from: the test of its axis
    passed, and so did the test of its sign. *)
Lemma cube_gradient_origin (point g : Vector3f) :
  In g (cubeAsOracle.gradients (cubeAsOracle.getGradients point)) ->
  let x := vx point in
  let y := vy point in
  let z := vz point in
  let a := cubeAsOracle.abs x in
  let b := cubeAsOracle.abs y in
  let c := cubeAsOracle.abs z in
  let f0 := cubeAsOracle.f0 in
  let f1 := cubeAsOracle.f1 in
  let fm1 := cubeAsOracle.fm1 in
  (Float32.leb (Arith.fmax b c) a = true
   /\ (g = mkVector3f f1 f0 f0 /\ Float32.leb f0 x = true
       \/ g = mkVector3f fm1 f0 f0 /\ Float32.leb x f0 = true))
  \/ (Float32.leb (Arith.fmax a c) b = true
      /\ (g = mkVector3f f0 f1 f0 /\ Float32.leb f0 y = true
          \/ g = mkVector3f f0 fm1 f0 /\ Float32.leb y f0 = true))
  \/ (Float32.leb (Arith.fmax b a) c = true
      /\ (g = mkVector3f f0 f0 f1 /\ Float32.leb f0 z = true
          \/ g = mkVector3f f0 f0 fm1 /\ Float32.leb z f0 = true)).
Proof.
  unfold cubeAsOracle.getGradients, cubeAsOracle.ge, cubeAsOracle.le,
    cubeAsOracle.push_back.
  cbn [cubeAsOracle.gradients]. cbn zeta.
  destruct (Float32.leb (Arith.fmax (cubeAsOracle.abs (vy point))
                                    (cubeAsOracle.abs (vz point)))
                        (cubeAsOracle.abs (vx point)));
  destruct (Float32.leb (Arith.fmax (cubeAsOracle.abs (vx point))
                                    (cubeAsOracle.abs (vz point)))
                        (cubeAsOracle.abs (vy point)));
  destruct (Float32.leb (Arith.fmax (cubeAsOracle.abs (vy point))
                                    (cubeAsOracle.abs (vx point)))
                        (cubeAsOracle.abs (vz point)));
  destruct (Float32.leb cubeAsOracle.f0 (vx point));
  destruct (Float32.leb (vx point) cubeAsOracle.f0);
  destruct (Float32.leb cubeAsOracle.f0 (vy point));
  destruct (Float32.leb (vy point) cubeAsOracle.f0);
  destruct (Float32.leb cubeAsOracle.f0 (vz point));
  destruct (Float32.leb (vz point) cubeAsOracle.f0);
  cbn [app In]; intros Hin;
  repeat (destruct Hin as [<-|Hin]; [tauto|]); destruct Hin.
Qed.

(** X12 (the gradients of the cube oracle are outward normals).  For
    every point with no NaN coordinate, each gradient [getGradients]
    returns is the unit vector along some axis, signed as the point's
    coordinate on that axis is; the absolute value of that coordinate is the
    greatest of the three, and [getValue] at the point is that absolute
    value minus 1.5. *)
Theorem cubeAsOracle_gradients_outward (point g : Vector3f) :
  Vector3f_has_nan point = false ->
  In g (cubeAsOracle.gradients (cubeAsOracle.getGradients point)) ->
  exists A : Axis,
    (g = set_coeff Vector3f_Zero A cubeAsOracle.f1
     /\ cubeAsOracle.ge (coeff point A) cubeAsOracle.f0 = true
     \/ g = set_coeff Vector3f_Zero A cubeAsOracle.fm1
        /\ cubeAsOracle.le (coeff point A) cubeAsOracle.f0 = true)
    /\ (forall B : Axis,
          cubeAsOracle.le (cubeAsOracle.abs (coeff point B))
                          (cubeAsOracle.abs (coeff point A)) = true)
    /\ cubeAsOracle.getValue point
       = Arith.fsub (cubeAsOracle.abs (coeff point A)) cubeAsOracle.f1_5.
Proof.
  intros (Hx & Hy & Hz)%Vector3f_has_nan_false Hin.
  apply cube_gradient_origin in Hin. cbn zeta in Hin.
  destruct (cube_axis_facts _ _ _ Hx Hy Hz) as (Fx & Fy & Fz). cbn zeta in *.
  assert (Ra : forall t, FloatOrder.is_nan t = false ->
                 Float32.leb (cubeAsOracle.abs t) (cubeAsOracle.abs t) = true).
  { intros t Ht. apply leb_refl. by rewrite abs_not_nan. }
  unfold cubeAsOracle.getValue, cubeAsOracle.ge, cubeAsOracle.le.
  destruct Hin as [[Hc Hg]|[[Hc Hg]|[Hc Hg]]].
  - destruct (Fx Hc) as (Hb & Hc' & ->). exists Axis0.
    split; [exact Hg|]. split; [|reflexivity]. intros []; cbn; auto.
  - destruct (Fy Hc) as (Ha & Hc' & ->). exists Axis1.
    split; [exact Hg|]. split; [|reflexivity]. intros []; cbn; auto.
  - destruct (Fz Hc) as (Ha & Hb & ->). exists Axis2.
    split; [exact Hg|]. split; [|reflexivity]. intros []; cbn; auto.
Qed.

Lemma cubeAsOracle_gradients_outward_witness :
  let point := mkVector3f Float32.one (Float32.of_int (-2)) Float32.zero in
  let g := mkVector3f Float32.zero (SFopp Float32.one) Float32.zero in
  exists A : Axis,
    (g = set_coeff Vector3f_Zero A cubeAsOracle.f1
     /\ cubeAsOracle.ge (coeff point A) cubeAsOracle.f0 = true
     \/ g = set_coeff Vector3f_Zero A cubeAsOracle.fm1
        /\ cubeAsOracle.le (coeff point A) cubeAsOracle.f0 = true)
    /\ (forall B : Axis,
          cubeAsOracle.le (cubeAsOracle.abs (coeff point B))
                          (cubeAsOracle.abs (coeff point A)) = true)
    /\ cubeAsOracle.getValue point
       = Arith.fsub (cubeAsOracle.abs (coeff point A)) cubeAsOracle.f1_5.
Proof.
  cbn zeta.
  apply (cubeAsOracle_gradients_outward
           (mkVector3f Float32.one (Float32.of_int (-2)) Float32.zero)
           (mkVector3f Float32.zero (SFopp Float32.one) Float32.zero)
           eq_refl).
  left. reflexivity.
Defined.

Example cubeAsOracle_getValue_sample :
  cubeAsOracle.getValue (mkVector3f Float32.one (Float32.of_int (-2)) Float32.zero)
  = Float32.of_dyadic 1 (-1).
Proof. reflexivity. Qed.
